(** * northbright/aliyun: request canonicalisation and signing

    A shallow embedding of package [sms] (the three copies of [sms.go] in the
    repository: the older revision built around the [SMS] struct and the two
    copies of the newer one built around [Client]) and of
    [message/param.go], together with the slices of the Go standard library
    those files call ([strings], [net/url], [fmt], [time],
    [encoding/base64], [crypto/sha1], [crypto/hmac]).

    Go strings are byte sequences; they are modelled by [string], whose
    characters are the 256 values of [ascii].  Byte slices are lists of
    integers in [0, 255]. *)

From Stdlib Require Import ZArith Lia List Ascii String.
From stdpp Require Import base option strings list sorting gmap.

Local Open Scope Z_scope.

(** ** Bytes *)

Definition byte_val (c : ascii) : Z := Z.of_N (N_of_ascii c).
Definition byte_chr (z : Z) : ascii := ascii_of_N (Z.to_N (z mod 256)).

(** [[]byte(s)] and [string(b)] *)
Fixpoint bytes_of_string (s : string) : list Z :=
  match s with
  | "" => []
  | String c s' => byte_val c :: bytes_of_string s'
  end.

Fixpoint string_of_bytes (b : list Z) : string :=
  match b with
  | [] => ""
  | x :: b' => String (byte_chr x) (string_of_bytes b')
  end.

(** [lo <= c && c <= hi] on bytes. *)
Definition in_range (lo hi c : ascii) : bool :=
  (byte_val lo <=? byte_val c) && (byte_val c <=? byte_val hi).

(** ** Package [strings] *)

Module GoStrings.

(** [strings.HasPrefix(s, prefix)] *)
Definition HasPrefix (s pre : string) : bool := String.prefix pre s.

(** [strings.Contains(s, substr)]: some suffix of [s] starts with
    [substr]. *)
Fixpoint Contains (s substr : string) : bool :=
  match s with
  | "" => HasPrefix "" substr
  | String _ s' => HasPrefix s substr || Contains s' substr
  end.

(** The loop of [strings.Replace]: scan left to right and replace each
    non-overlapping occurrence of [old] by [new] while the budget [n] is
    not exhausted ([n < 0]: no limit).  [skip] counts the bytes of a
    matched occurrence that are still to be jumped over
    ([start = j + len(old)]). *)
Fixpoint replace_loop (old new : string) (n : Z) (skip : nat) (s : string)
  : string :=
  match s with
  | "" => ""
  | String c s' =>
      match skip with
      | S k => replace_loop old new n k s'
      | O =>
          if negb (n =? 0) && HasPrefix s old
          then new +:+ replace_loop old new (n - 1) (String.length old - 1) s'
          else String c (replace_loop old new n 0 s')
      end
  end.

(** [strings.Replace(s, old, new, n)].  Every call in the repository passes
    a non-empty [old]; the rune-wise insertion Go performs for an empty
    [old] is not modelled and [s] is returned as is. *)
Definition Replace (s old new : string) (n : Z) : string :=
  if String.eqb old new || (n =? 0) then s
  else if String.eqb old "" then s
  else replace_loop old new n 0 s.

(** The ASCII branch of [strings.ToUpper]. *)
Definition upper_byte (c : ascii) : ascii :=
  if in_range "a" "z" c then byte_chr (byte_val c - 32) else c.

Fixpoint isASCII (s : string) : bool :=
  match s with
  | "" => true
  | String c s' => (byte_val c <? 128) && isASCII s'
  end.

Fixpoint map_bytes (f : ascii -> ascii) (s : string) : string :=
  match s with
  | "" => ""
  | String c s' => String (f c) (map_bytes f s')
  end.

(** [strings.ToUpper(s)]: byte-wise on an all-ASCII string; otherwise
    [strings.Map(unicode.ToUpper, s)], which depends on the Unicode case
    tables and is taken as the parameter [unicode_upper]. *)
Definition ToUpper (unicode_upper : string -> string) (s : string) : string :=
  if isASCII s then map_bytes upper_byte s else unicode_upper s.

End GoStrings.

(** ** Package [net/url] *)

Module URL.

Definition upperhex : string := "0123456789ABCDEF".

(** [upperhex[i]] *)
Definition hex_digit (i : Z) : ascii :=
  match String.get (Z.to_nat i) upperhex with
  | Some c => c
  | None => "0"%char
  end.

(** [shouldEscape(c, encodeQueryComponent)]: the unreserved characters
    stay; everything else, the reserved characters included in this mode,
    is escaped. *)
Definition shouldEscape (c : ascii) : bool :=
  if in_range "a" "z" c || in_range "A" "Z" c || in_range "0" "9" c
  then false
  else
    match c with
    | "-" | "_" | "." | "~" => false
    | _ => true
    end%char.

(** One iteration of the second loop of
    [escape(s, encodeQueryComponent)]. *)
Definition escape_byte (c : ascii) : string :=
  if Ascii.eqb c " " then "+"
  else if shouldEscape c then
    String "%" (String (hex_digit (Z.shiftr (byte_val c) 4))
               (String (hex_digit (Z.land (byte_val c) 15)) ""))
  else String c "".

(** [url.QueryEscape(s)] *)
Fixpoint QueryEscape (s : string) : string :=
  match s with
  | "" => ""
  | String c s' => escape_byte c +:+ QueryEscape s'
  end.

(** [url.Values] is [map[string][]string]. *)
Definition Values_Set (v : gmap string (list string)) (key value : string)
  : gmap string (list string) :=
  <[key := [value]]> v.

(** The inner loop of [Values.Encode]: one value of one key is appended to
    the buffer, after a ['&'] when the buffer is not empty. *)
Definition Encode_value (keyEscaped : string) (buf v : string) : string :=
  let buf := if (0 <? String.length buf)%nat then buf +:+ "&" else buf in
  buf +:+ keyEscaped +:+ "=" +:+ QueryEscape v.

(** The outer loop body of [Values.Encode]. *)
Definition Encode_key (v : gmap string (list string)) (buf k : string)
  : string :=
  let vs := default [] (v !! k) in
  let keyEscaped := QueryEscape k in
  foldl (Encode_value keyEscaped) buf vs.

(** [Values.Encode], with the order in which [for k := range v] happens to
    visit the keys made explicit: the keys are collected, sorted as raw
    strings ([sort.Strings]: byte-wise) and only then escaped. *)
Definition Encode_range (v : gmap string (list string)) (keys : list string)
  : string :=
  if (size v =? 0)%nat then ""
  else foldl (Encode_key v) "" (merge_sort String.le keys).

Definition Encode (v : gmap string (list string)) : string :=
  Encode_range v (map_to_list v).*1.

(** The fields of [url.URL] the package fills in, and [URL.String] on
    them (no user info, no opaque part; the path ["/"] needs no
    escaping). *)
Record URL := { Scheme : string; Host : string; Path : string;
                RawQuery : string }.

Definition String_ (u : URL) : string :=
  (if String.eqb (Scheme u) "" then "" else Scheme u +:+ ":")
  +:+ (if String.eqb (Scheme u) "" && String.eqb (Host u) "" then ""
       else if String.eqb (Host u) "" && String.eqb (Path u) "" then ""
       else "//" +:+ Host u)
  +:+ Path u
  +:+ (if String.eqb (RawQuery u) "" then "" else "?" +:+ RawQuery u).

End URL.

(** ** Package [encoding/base64] *)

Module Base64.

Definition encodeStd : string :=
  "ABCDEFGHIJKLMNOPQRSTUVWXYZabcdefghijklmnopqrstuvwxyz0123456789+/".

(** [enc.encode[i]] *)
Definition enc (i : Z) : ascii :=
  match String.get (Z.to_nat i) encodeStd with
  | Some c => c
  | None => "A"%char
  end.

(** [base64.StdEncoding.EncodeToString(src)]: three bytes give four
    characters; a remainder of one or two bytes is padded with ['=']. *)
Fixpoint EncodeToString (src : list Z) : string :=
  match src with
  | a :: b :: c :: rest =>
      let val := Z.lor (Z.lor (Z.shiftl a 16) (Z.shiftl b 8)) c in
      String (enc (Z.land (Z.shiftr val 18) 63))
     (String (enc (Z.land (Z.shiftr val 12) 63))
     (String (enc (Z.land (Z.shiftr val 6) 63))
     (String (enc (Z.land val 63)) (EncodeToString rest))))
  | [a; b] =>
      let val := Z.lor (Z.shiftl a 16) (Z.shiftl b 8) in
      String (enc (Z.land (Z.shiftr val 18) 63))
     (String (enc (Z.land (Z.shiftr val 12) 63))
     (String (enc (Z.land (Z.shiftr val 6) 63)) "="))
  | [a] =>
      let val := Z.shiftl a 16 in
      String (enc (Z.land (Z.shiftr val 18) 63))
     (String (enc (Z.land (Z.shiftr val 12) 63)) "==")
  | [] => ""
  end.

End Base64.

(** ** Package [crypto/sha1] (FIPS 180-4) *)

Module SHA1.

Definition BlockSize : nat := 64.
Definition Size : nat := 20.

Definition w32 (x : Z) : Z := x mod 2 ^ 32.
Definition add32 (x y : Z) : Z := w32 (x + y).
Definition rotl (n x : Z) : Z :=
  w32 (Z.lor (Z.shiftl x n) (Z.shiftr x (32 - n))).

(** Big-endian encodings. *)
Definition be_bytes (count : nat) (x : Z) : list Z :=
  map (fun i => Z.land (Z.shiftr x (8 * Z.of_nat i)) 255) (rev (seq 0 count)).

Definition be_word (b : list Z) : Z :=
  fold_left (fun acc x => Z.lor (Z.shiftl acc 8) x) b 0.

(** The message followed by [0x80], zeros up to 56 mod 64, and the bit
    length on eight bytes. *)
Definition pad (msg : list Z) : list Z :=
  let len := length msg in
  let zeros := ((64 + 55 - len mod 64) mod 64)%nat in
  msg ++ 128 :: repeat 0 zeros ++ be_bytes 8 (8 * Z.of_nat len).

Fixpoint chunks (fuel size : nat) (l : list Z) : list (list Z) :=
  match fuel with
  | O => []
  | S f =>
      match l with
      | [] => []
      | _ => firstn size l :: chunks f size (skipn size l)
      end
  end.

(** The eighty-word message schedule of one block. *)
Fixpoint schedule (rounds : nat) (w : list Z) : list Z :=
  match rounds with
  | O => w
  | S r =>
      let t := length w in
      let x := Z.lxor (Z.lxor (nth (t - 3) w 0) (nth (t - 8) w 0))
                      (Z.lxor (nth (t - 14) w 0) (nth (t - 16) w 0)) in
      schedule r (w ++ [rotl 1 x])
  end.

Definition f_k (t : nat) (b c d : Z) : Z * Z :=
  if (t <? 20)%nat then
    (Z.lor (Z.land b c) (Z.land (Z.lxor b 4294967295) d), 1518500249)
  else if (t <? 40)%nat then
    (Z.lxor (Z.lxor b c) d, 1859775393)
  else if (t <? 60)%nat then
    (Z.lor (Z.lor (Z.land b c) (Z.land b d)) (Z.land c d), 2400959708)
  else
    (Z.lxor (Z.lxor b c) d, 3395469782).

Definition round (st : Z * Z * Z * Z * Z) (tw : nat * Z)
  : Z * Z * Z * Z * Z :=
  let '(a, b, c, d, e) := st in
  let '(t, w) := tw in
  let '(f, k) := f_k t b c d in
  let temp := add32 (add32 (add32 (add32 (rotl 5 a) f) e) k) w in
  (temp, a, rotl 30 b, c, d).

Definition block (h : Z * Z * Z * Z * Z) (blk : list Z) : Z * Z * Z * Z * Z :=
  let w := schedule 64 (map be_word (chunks 16 4 blk)) in
  let '(a, b, c, d, e) := fold_left round (combine (seq 0 80) w) h in
  let '(h0, h1, h2, h3, h4) := h in
  (add32 h0 a, add32 h1 b, add32 h2 c, add32 h3 d, add32 h4 e).

Definition init : Z * Z * Z * Z * Z :=
  (1732584193, 4023233417, 2562383102, 271733878, 3285377520).

(** [sha1.Sum(msg)], as a slice of twenty bytes. *)
Definition Sum (msg : list Z) : list Z :=
  let p := pad msg in
  let '(h0, h1, h2, h3, h4) :=
    fold_left block (chunks (length p) 64 p) init in
  be_bytes 4 h0 ++ be_bytes 4 h1 ++ be_bytes 4 h2 ++ be_bytes 4 h3
    ++ be_bytes 4 h4.

End SHA1.

(** ** Package [crypto/hmac] over SHA-1 (RFC 2104) *)

Module HMAC.

(** The state of the keyed hash: the two padded keys and the bytes written
    so far. *)
Record t := { opad : list Z; ipad : list Z; written : list Z }.

(** [hmac.New(sha1.New, key)]: a key longer than the block size is hashed
    first; the key is then padded with zeros to the block size. *)
Definition New (key : list Z) : t :=
  let key := if (SHA1.BlockSize <? length key)%nat then SHA1.Sum key else key in
  let key := key ++ repeat 0 (SHA1.BlockSize - length key) in
  {| opad := map (Z.lxor 92) key; ipad := map (Z.lxor 54) key;
     written := [] |}.

(** [mac.Write(p)] *)
Definition Write (m : t) (p : list Z) : t :=
  {| opad := opad m; ipad := ipad m; written := written m ++ p |}.

(** [mac.Sum(in)] *)
Definition Sum (m : t) (b : list Z) : list Z :=
  b ++ SHA1.Sum (opad m ++ SHA1.Sum (ipad m ++ written m)).

End HMAC.

(** ** Package [fmt] *)

Module Fmt.

(** An operand of [Sprintf]. *)
Inductive arg := Int (z : Z) | Str (s : string).

Definition digit (d : Z) : ascii := byte_chr (48 + d).

(** The digit loop of [fmtInteger]: the decimal digits of [u >= 0] are
    written from the least significant one, in front of [acc]. *)
Fixpoint decimal_go (fuel : nat) (u : Z) (acc : string) : string :=
  match fuel with
  | O => acc
  | S f =>
      let acc := String (digit (u mod 10)) acc in
      if u <? 10 then acc else decimal_go f (u / 10) acc
  end.

Definition decimal (u : Z) : string :=
  decimal_go (S (Z.to_nat (Z.log2 u))) u "".

Fixpoint repeat_byte (c : ascii) (n : nat) : string :=
  match n with
  | O => ""
  | S k => String c (repeat_byte c k)
  end.

(** [%d] with an optional [0] flag and a width: with the flag the digits
    are padded with zeros up to the width, the sign counting for one
    position; without it the result is padded with spaces on the left.
    The width is a minimum: a longer number is never truncated. *)
Definition fmt_integer (zero : bool) (width : nat) (v : Z) : string :=
  let negative := v <? 0 in
  let digits := decimal (Z.abs v) in
  if zero then
    let prec := if negative then (width - 1)%nat else width in
    let body := repeat_byte "0" (prec - String.length digits) +:+ digits in
    if negative then String "-" body else body
  else
    let body := if negative then String "-" digits else digits in
    repeat_byte " " (width - String.length body) +:+ body.

(** [%s] with a width. *)
Definition fmt_string (width : nat) (s : string) : string :=
  repeat_byte " " (width - String.length s) +:+ s.

(** Where [doPrintf] stands in the format: in plain text, just after a
    ['%'], or inside the width of a directive. *)
Inductive pstate := Text | Flags | Width (zero : bool) (w : nat).

(** The verb [c] of a directive with flag [zero] and width [w], applied to
    the next operand.  Only [%d], [%s] and [%%] are modelled; any other
    verb, a missing operand or an operand of the wrong kind leaves the
    verb in the output. *)
Definition verb (zero : bool) (w : nat) (c : ascii) (args : list arg)
  : string * list arg :=
  if Ascii.eqb c "%" then ("%", args)
  else
    match args with
    | Int z :: args' =>
        if Ascii.eqb c "d" then (fmt_integer zero w z, args')
        else (String "%" (String c ""), args')
    | Str s :: args' =>
        if Ascii.eqb c "s" then (fmt_string w s, args')
        else (String "%" (String c ""), args')
    | [] => (String "%" (String c ""), [])
    end.

Fixpoint doPrintf (st : pstate) (format : string) (args : list arg)
  : string :=
  match format with
  | "" => ""
  | String c rest =>
      match st with
      | Text =>
          if Ascii.eqb c "%" then doPrintf Flags rest args
          else String c (doPrintf Text rest args)
      | Flags =>
          if Ascii.eqb c "0" then doPrintf (Width true 0) rest args
          else if in_range "1" "9" c
          then doPrintf (Width false (Z.to_nat (byte_val c - 48))) rest args
          else let '(out, args') := verb false 0 c args in
               out +:+ doPrintf Text rest args'
      | Width zero w =>
          if in_range "0" "9" c
          then doPrintf (Width zero (10 * w + Z.to_nat (byte_val c - 48)))
                        rest args
          else let '(out, args') := verb zero w c args in
               out +:+ doPrintf Text rest args'
      end
  end.

(** [fmt.Sprintf(format, args...)] *)
Definition Sprintf (format : string) (args : list arg) : string :=
  doPrintf Text format args.

End Fmt.

(** ** Package [time] *)

Module Time.

(** A [time.Time]: an instant, in seconds since 1970-01-01T00:00:00Z, and
    the offset east of UTC, in seconds, of its location.  (Nanoseconds are
    never read by the package.) *)
Record t := { unix : Z; offset : Z }.

(** [t.UTC()]: the same instant, located in UTC. *)
Definition UTC (x : t) : t := {| unix := unix x; offset := 0 |}.

(** Seconds since the epoch on the wall clock of the location. *)
Definition wall (x : t) : Z := unix x + offset x.

(** Go keeps these seconds in 64 bits and derives the calendar fields from
    an unsigned count of seconds since a remote "absolute" year, which wraps
    around for instants some 292 billion years away.  The fields below are
    the fields of Go where nothing wraps; being within [2^62] seconds of the
    epoch is enough for that. *)
Definition no_wrap (x : t) : Prop := - 2 ^ 62 <= wall x <= 2 ^ 62.

(** The proleptic Gregorian date of a day number (days since
    1970-01-01), by eras of 400 years that start on 1 March. *)
Definition civil (day : Z) : Z * Z * Z :=
  let z := day + 719468 in
  let era := z / 146097 in
  let doe := z mod 146097 in
  let yoe := (doe - doe / 1460 + doe / 36524 - doe / 146096) / 365 in
  let doy := doe - (365 * yoe + yoe / 4 - yoe / 100) in
  let mp := (5 * doy + 2) / 153 in
  let d := doy - (153 * mp + 2) / 5 + 1 in
  let m := if mp <? 10 then mp + 3 else mp - 9 in
  let y := yoe + era * 400 + (if m <=? 2 then 1 else 0) in
  (y, m, d).

Definition Year (x : t) : Z := (civil (wall x / 86400)).1.1.
Definition Month (x : t) : Z := (civil (wall x / 86400)).1.2.
Definition Day (x : t) : Z := (civil (wall x / 86400)).2.
Definition Hour (x : t) : Z := wall x mod 86400 / 3600.
Definition Minute (x : t) : Z := wall x mod 3600 / 60.
Definition Second (x : t) : Z := wall x mod 60.

End Time.

(** ** Package [message]: [param.go] *)

Module Message.

(** [type Param struct { f func(v url.Values) }]: the closure updates the
    map it is given in place; here it returns the updated map. *)
Record Param := { f : gmap string (list string) -> gmap string (list string) }.

(** [GenTimestamp] *)
Definition GenTimestamp (t : Time.t) : string :=
  let gmt := Time.UTC t in
  Fmt.Sprintf "%04d-%02d-%02dT%02d:%02d:%02dZ"
    [Fmt.Int (Time.Year gmt); Fmt.Int (Time.Month gmt);
     Fmt.Int (Time.Day gmt); Fmt.Int (Time.Hour gmt);
     Fmt.Int (Time.Minute gmt); Fmt.Int (Time.Second gmt)].

(** The loop of [GenPhoneNumbersStr]: [i] is the index of the head of
    [nums], [l] the length of the whole slice. *)
Fixpoint GenPhoneNumbersStr_loop (l i : Z) (nums : list string) (str : string)
  : string :=
  match nums with
  | [] => str
  | num :: rest =>
      let str := str +:+ num in
      let str := if negb (i =? l - 1) then str +:+ "," else str in
      GenPhoneNumbersStr_loop l (i + 1) rest str
  end.

(** [GenPhoneNumbersStr] *)
Definition GenPhoneNumbersStr (nums : list string) : string :=
  GenPhoneNumbersStr_loop (Z.of_nat (length nums)) 0 nums "".

Definition Timestamp (t : Time.t) : Param :=
  {| f := fun v => URL.Values_Set v "Timestamp" (GenTimestamp t) |}.
Definition SignatureMethod (m : string) : Param :=
  {| f := fun v => URL.Values_Set v "SignatureMethod" m |}.
Definition SignatureVersion (ver : string) : Param :=
  {| f := fun v => URL.Values_Set v "SignatureVersion" ver |}.
Definition SignatureNonce (nonce : string) : Param :=
  {| f := fun v => URL.Values_Set v "SignatureNonce" nonce |}.
Definition Action (action : string) : Param :=
  {| f := fun v => URL.Values_Set v "Action" action |}.
Definition Version (ver : string) : Param :=
  {| f := fun v => URL.Values_Set v "Version" ver |}.
Definition RegionID (ID : string) : Param :=
  {| f := fun v => URL.Values_Set v "RegionId" ID |}.
Definition PhoneNumbers (nums : list string) : Param :=
  {| f := fun v => URL.Values_Set v "PhoneNumbers" (GenPhoneNumbersStr nums) |}.

End Message.

(** ** Package [sms] *)

(** [type Client struct]: the secret and the parameter map.  The older
    revision names the struct [SMS]; its two fields are the same.  The
    embedded [http.Client] of the newer revision is the [client_Do] of the
    [World] below.  A method that updates [c.Params] in place returns the
    updated client. *)
Record Client := { accessKeySecret : string; Params : gmap string string }.

(** [type Param struct { f func(c *Client) }] *)
Record Param := { f : Client -> Client }.

(** [type Response struct] *)
Record Response := { RequestID : string; Code : string; Message : string;
                     BizID : string }.

(** [c.Params[key] = value] *)
Definition set_Params (c : Client) (key value : string) : Client :=
  {| accessKeySecret := accessKeySecret c;
     Params := <[key := value]> (Params c) |}.

(** [NewClient] ([New] in the older revision) *)
Definition NewClient (accessKeyID accessKeySecret : string) : Client :=
  let c := {| accessKeySecret := accessKeySecret; Params := ∅ |} in
  set_Params c "AccessKeyId" accessKeyID.

(** [SetTimestamp] *)
Definition SetTimestamp (c : Client) (t : Time.t) : Client :=
  let gmt := Time.UTC t in
  set_Params c "Timestamp"
    (Fmt.Sprintf "%04d-%02d-%02dT%02d:%02d:%02dZ"
       [Fmt.Int (Time.Year gmt); Fmt.Int (Time.Month gmt);
        Fmt.Int (Time.Day gmt); Fmt.Int (Time.Hour gmt);
        Fmt.Int (Time.Minute gmt); Fmt.Int (Time.Second gmt)]).

(** The exported constructors of [Param]. *)
Definition Timestamp (t : Time.t) : Param :=
  {| f := fun c => SetTimestamp c t |}.
Definition SignatureMethod (m : string) : Param :=
  {| f := fun c => set_Params c "SignatureMethod" m |}.
Definition SignatureVersion (v : string) : Param :=
  {| f := fun c => set_Params c "SignatureVersion" v |}.
Definition SignatureNonce (nonce : string) : Param :=
  {| f := fun c => set_Params c "SignatureNonce" nonce |}.
Definition Action (action : string) : Param :=
  {| f := fun c => set_Params c "Action" action |}.
Definition Version (v : string) : Param :=
  {| f := fun c => set_Params c "Version" v |}.
Definition RegionID (ID : string) : Param :=
  {| f := fun c => set_Params c "RegionId" ID |}.
Definition OutID (ID : string) : Param :=
  {| f := fun c => set_Params c "OutId" ID |}.

(** The loop of [SetPhoneNumbers]. *)
Fixpoint SetPhoneNumbers_loop (l i : Z) (nums : list string) (str : string)
  : string :=
  match nums with
  | [] => str
  | num :: rest =>
      let str := str +:+ num in
      let str := if negb (i =? l - 1) then str +:+ "," else str in
      SetPhoneNumbers_loop l (i + 1) rest str
  end.

(** [SetPhoneNumbers] *)
Definition SetPhoneNumbers (c : Client) (nums : list string) : Client :=
  let str := "" in
  let l := Z.of_nat (length nums) in
  let str := SetPhoneNumbers_loop l 0 nums str in
  set_Params c "PhoneNumbers" str.

(** [SpecialURLEncode] *)
Definition SpecialURLEncode (str : string) : string :=
  let encodedStr := URL.QueryEscape str in
  let encodedStr := GoStrings.Replace encodedStr "+" "%20" (-1) in
  let encodedStr := GoStrings.Replace encodedStr "*" "%2A" (-1) in
  let encodedStr := GoStrings.Replace encodedStr "%7E" "~" (-1) in
  encodedStr.

(** [SortedQueryStr], with the order in which [for k, v := range c.Params]
    visits the entries made explicit. *)
Definition SortedQueryStr_range (entries : list (string * string)) : string :=
  let values :=
    foldl (fun values kv => URL.Values_Set values kv.1 kv.2) ∅ entries in
  URL.Encode values.

Definition SortedQueryStr (c : Client) : string :=
  SortedQueryStr_range (map_to_list (Params c)).

(** [mac := hmac.New(sha1.New, key); mac.Write(msg); mac.Sum(nil)] *)
Definition hmac_sha1 (key msg : string) : list Z :=
  let mac := HMAC.New (bytes_of_string key) in
  let mac := HMAC.Write mac (bytes_of_string msg) in
  HMAC.Sum mac [].

Module SMS.

(** [func (sms *SMS) SignedString() string] (older revision) *)
Definition SignedString (sms : Client) : string :=
  let str := "GET&" +:+ URL.QueryEscape "/" +:+ "&"
             +:+ SpecialURLEncode (SortedQueryStr sms) in
  let sign := Base64.EncodeToString
                (hmac_sha1 (accessKeySecret sms +:+ "&") str) in
  let sign := URL.QueryEscape sign in
  SpecialURLEncode sign.

End SMS.

Module Client.

(** [func (c *Client) SignedString() string] (newer revision) *)
Definition SignedString (c : Client) : string :=
  let str := "GET&" +:+ URL.QueryEscape "/" +:+ "&"
             +:+ SpecialURLEncode (SortedQueryStr c) in
  let sign := Base64.EncodeToString
                (hmac_sha1 (accessKeySecret c +:+ "&") str) in
  SpecialURLEncode sign.

End Client.

(** *** The collaborators of [Send] *)

Definition error := string.

Inductive result (A : Type) := Ok (a : A) | Err (e : error).
Arguments Ok {A} a.
Arguments Err {A} e.

Record Request := { Method : string; RequestURL : string }.

(** An [*http.Response]: [Body] is what reading the body to its end gives,
    the bytes or the read error. *)
Record HTTPResponse := { StatusCode : Z; Body : result string }.

(** Everything [Send] obtains from outside the package in one call: the
    clock, the nonce generator, the HTTP transport, the JSON decoder, and
    the Unicode branch of [strings.ToUpper]. *)
Record World := {
  time_Now : Time.t;
  uuid_New : string * option error;
  http_NewRequest : string -> string -> result Request;
  client_Do : Request -> result HTTPResponse;
  json_Unmarshal : string -> Response -> result Response;
  unicode_upper : string -> string
}.

Definition ioutil_ReadAll (b : result string) : result string := b.

(** *** [Send] *)

(** Lines "Set default common parameters" to "Set required business
    parameters": the client as it stands when the signature is computed. *)
Definition Send_params (w : World) (c : Client) (phoneNumbers : list string)
    (signName templateCode templateParam : string) (params : list Param)
  : Client :=
  let c := SetTimestamp c (time_Now w) in
  let c := set_Params c "Format" "JSON" in
  let c := set_Params c "SignatureMethod" "HMAC-SHA1" in
  let c := set_Params c "SignatureVersion" "1.0" in
  let '(UUID, _) := uuid_New w in
  let c := set_Params c "SignatureNonce" UUID in
  let c := set_Params c "Action" "SendSms" in
  let c := set_Params c "Version" "2017-05-25" in
  let c := set_Params c "RegionId" "cn-hangzhou" in
  let c := foldl (fun c param => f param c) c params in
  let c := SetPhoneNumbers c phoneNumbers in
  let c := set_Params c "SignName" signName in
  let c := set_Params c "TemplateCode" templateCode in
  let c := set_Params c "TemplateParam" templateParam in
  c.

(** Lines "Get signature" to "Make final query string with signature". *)
Definition Send_rawQuery (SignedString : Client -> string) (c : Client)
  : string :=
  let sign := SignedString c in
  let sortedQueryStr := SortedQueryStr c in
  Fmt.Sprintf "Signature=%s&%s" [Fmt.Str sign; Fmt.Str sortedQueryStr].

Definition Send_url (rawQuery : string) : URL.URL :=
  {| URL.Scheme := "http"; URL.Host := "dysmsapi.aliyuncs.com";
     URL.Path := "/"; URL.RawQuery := rawQuery |}.

(** From [http.NewRequest] to the end: the three results of [Send]. *)
Definition Send_request (w : World) (u : URL.URL)
  : bool * option Response * option error :=
  match http_NewRequest w "GET" (URL.String_ u) with
  | Err err => (false, None, Some err)
  | Ok req =>
      match client_Do w req with
      | Err err => (false, None, Some err)
      | Ok resp =>
          match ioutil_ReadAll (Body resp) with
          | Err err => (false, None, Some err)
          | Ok buf =>
              let response := {| RequestID := ""; Code := ""; Message := "";
                                 BizID := "" |} in
              match json_Unmarshal w buf response with
              | Err err => (false, None, Some err)
              | Ok response =>
                  if negb (String.eqb
                             (GoStrings.ToUpper (unicode_upper w) (Code response))
                             "OK")
                  then (false, Some response, None)
                  else (true, Some response, None)
              end
          end
      end
  end.

(** The body shared by [SMS.Send] and [Client.Send], which differ in the
    [SignedString] they call: the client after the call and the three
    results. *)
Definition Send_with (SignedString : Client -> string) (w : World)
    (c : Client) (phoneNumbers : list string)
    (signName templateCode templateParam : string) (params : list Param)
  : Client * (bool * option Response * option error) :=
  let c := Send_params w c phoneNumbers signName templateCode templateParam
             params in
  let rawQuery := Send_rawQuery SignedString c in
  let u := Send_url rawQuery in
  (c, Send_request w u).

(** [func (sms *SMS) Send(...)] (older revision) *)
Definition SMS_Send := Send_with SMS.SignedString.

(** [func (c *Client) Send(...)] (newer revision) *)
Definition Client_Send := Send_with Client.SignedString.

(** ** Reading a query string back *)

(** [strings.Split(s, sep)] for a one-byte separator. *)
Fixpoint split (sep : ascii) (s : string) : list string :=
  match s with
  | "" => [""]
  | String c s' =>
      if Ascii.eqb c sep then "" :: split sep s'
      else match split sep s' with
           | h :: t => String c h :: t
           | [] => [String c ""]
           end
  end.

(** [strings.Cut(s, sep)] for a one-byte separator, without the flag. *)
Fixpoint cut (sep : ascii) (s : string) : string * string :=
  match s with
  | "" => ("", "")
  | String c s' =>
      if Ascii.eqb c sep then ("", s')
      else let '(a, b) := cut sep s' in (String c a, b)
  end.

(** The [key=value] pairs of a query string, in the order they appear, still
    percent-encoded. *)
Definition pairs_of (query : string) : list (string * string) :=
  if String.eqb query "" then [] else map (cut "=") (split "&" query).

(** Strictly ascending byte-wise lexicographic order. *)
Definition str_lt (a b : string) : Prop := String.ltb a b = true.

(** ** Reference definitions used to state the properties *)

(** [url.QueryUnescape] on well-formed input: ['+'] is a space and [%XY] the
    byte with hexadecimal digits [X] and [Y]. *)
Definition unhex (c : ascii) : Z :=
  if in_range "0" "9" c then byte_val c - 48
  else if in_range "a" "f" c then byte_val c - 97 + 10
  else if in_range "A" "F" c then byte_val c - 65 + 10
  else 0.

Fixpoint QueryUnescape (s : string) : string :=
  match s with
  | "" => ""
  | String "%" (String h (String l rest)) =>
      String (byte_chr (Z.lor (Z.shiftl (unhex h) 4) (unhex l)))
             (QueryUnescape rest)
  | String c rest =>
      String (if Ascii.eqb c "+" then " "%char else c) (QueryUnescape rest)
  end.

(** The corrected escape, one byte at a time: a space is [%20], an
    unreserved byte is itself, any other byte is [%XY]. *)
Definition special_byte (c : ascii) : string :=
  if Ascii.eqb c " " then "%20" else URL.escape_byte c.

Fixpoint special (s : string) : string :=
  match s with
  | "" => ""
  | String c s' => special_byte c +:+ special s'
  end.

(** [strings.ContainsRune] for a one-byte rune. *)
Fixpoint has_byte (b : ascii) (s : string) : bool :=
  match s with
  | "" => false
  | String c s' => Ascii.eqb c b || has_byte b s'
  end.

(** RFC 2104 over SHA-1: [H((K' xor opad) || H((K' xor ipad) || msg))], where
    [K'] is the key, hashed first when longer than a block, padded with
    zeros to 64 bytes. *)
Definition hmac_rfc2104 (key msg : list Z) : list Z :=
  let k := if (64 <? length key)%nat then SHA1.Sum key else key in
  let k := (k ++ repeat 0 (64 - length k))%list in
  SHA1.Sum (map (Z.lxor 92) k ++ SHA1.Sum (map (Z.lxor 54) k ++ msg)).

(** The entries of a parameter map in ascending order of their raw keys. *)
Definition sorted_keys (m : gmap string string) : list string :=
  merge_sort String.le (map_to_list m).*1.

Definition sorted_entries (m : gmap string string) : list (string * string) :=
  (fun k => (k, default "" (m !! k))) <$> sorted_keys m.

(** One [key=value] pair of the encoded form, and the pairs that follow the
    first one. *)
Definition pair_str (m : gmap string string) (k : string) : string :=
  URL.QueryEscape k +:+ "=" +:+ URL.QueryEscape (default "" (m !! k)).

Fixpoint amp_pairs (m : gmap string string) (ks : list string) : string :=
  match ks with
  | [] => ""
  | k :: ks' => "&" +:+ pair_str m k +:+ amp_pairs m ks'
  end.

(** [strings.Join(elems, sep)] *)
Fixpoint Join (elems : list string) (sep : string) : string :=
  match elems with
  | [] => ""
  | [e] => e
  | e :: rest => e +:+ sep +:+ Join rest sep
  end.

(** A call of one of the exported constructors of [Param]: the field [f] is
    not exported, so these calls are the only overrides a caller outside the
    package can pass to [Send]. *)
Inductive ParamCall :=
| CallTimestamp (t : Time.t)
| CallSignatureMethod (m : string)
| CallSignatureVersion (v : string)
| CallSignatureNonce (nonce : string)
| CallAction (action : string)
| CallVersion (v : string)
| CallRegionID (ID : string)
| CallOutID (ID : string).

Definition call (p : ParamCall) : Param :=
  match p with
  | CallTimestamp t => Timestamp t
  | CallSignatureMethod m => SignatureMethod m
  | CallSignatureVersion v => SignatureVersion v
  | CallSignatureNonce nonce => SignatureNonce nonce
  | CallAction action => Action action
  | CallVersion v => Version v
  | CallRegionID ID => RegionID ID
  | CallOutID ID => OutID ID
  end.

(** The key an override writes and the value it writes there. *)
Definition override_key (p : ParamCall) : string :=
  match p with
  | CallTimestamp _ => "Timestamp"
  | CallSignatureMethod _ => "SignatureMethod"
  | CallSignatureVersion _ => "SignatureVersion"
  | CallSignatureNonce _ => "SignatureNonce"
  | CallAction _ => "Action"
  | CallVersion _ => "Version"
  | CallRegionID _ => "RegionId"
  | CallOutID _ => "OutId"
  end.

Definition override_value (p : ParamCall) : string :=
  match p with
  | CallTimestamp t => Message.GenTimestamp t
  | CallSignatureMethod m => m
  | CallSignatureVersion v => v
  | CallSignatureNonce nonce => nonce
  | CallAction action => action
  | CallVersion v => v
  | CallRegionID ID => ID
  | CallOutID ID => ID
  end.

(** The last override, in the order given, that writes the key [K]. *)
Definition last_override (K : string) (ps : list ParamCall) : option string :=
  last (omap (fun p => if String.eqb (override_key p) K
                       then Some (override_value p) else None) ps).

(** An override that writes one key, as every [Param] of the package does,
    for an arbitrary key: the required fields included. *)
Definition write (key value : string) : Param :=
  {| f := fun c => set_Params c key value |}.

(** The last write, in the order given, under the key [K]. *)
Definition last_write (K : string) (ws : list (string * string))
  : option string :=
  last (omap (fun kv : string * string =>
                if String.eqb kv.1 K then Some kv.2 else None) ws).

(** The required business field written under [K] in step 3, if any. *)
Definition required_field (phoneNumbers : list string)
    (signName templateCode templateParam : string) (K : string)
  : option string :=
  if String.eqb K "PhoneNumbers" then Some (Join phoneNumbers ",")
  else if String.eqb K "SignName" then Some signName
  else if String.eqb K "TemplateCode" then Some templateCode
  else if String.eqb K "TemplateParam" then Some templateParam
  else None.

(** The default seeded under [K] in step 1, if any. *)
Definition default_field (w : World) (K : string) : option string :=
  if String.eqb K "Timestamp" then Some (Message.GenTimestamp (time_Now w))
  else if String.eqb K "Format" then Some "JSON"
  else if String.eqb K "SignatureMethod" then Some "HMAC-SHA1"
  else if String.eqb K "SignatureVersion" then Some "1.0"
  else if String.eqb K "SignatureNonce" then Some (uuid_New w).1
  else if String.eqb K "Action" then Some "SendSms"
  else if String.eqb K "Version" then Some "2017-05-25"
  else if String.eqb K "RegionId" then Some "cn-hangzhou"
  else None.

(** The clients a caller obtains through the exported functions:
    [NewClient], then any number of [Send] of either revision. *)
Inductive reachable : Client -> Prop :=
| reachable_new (accessKeyID secret : string) :
    reachable (NewClient accessKeyID secret)
| reachable_send (SignedString : Client -> string) (w : World) (c : Client)
    (phoneNumbers : list string) (signName templateCode templateParam : string)
    (ps : list ParamCall) :
    reachable c ->
    reachable (Send_with SignedString w c phoneNumbers signName templateCode
                 templateParam (call <$> ps)).1.

(** Equality up to the case of the ASCII letters. *)
Definition lower_byte (c : ascii) : ascii :=
  if in_range "A" "Z" c then byte_chr (byte_val c + 32) else c.

Fixpoint equal_fold (a b : string) : bool :=
  match a, b with
  | "", "" => true
  | String x a', String y b' =>
      Ascii.eqb (lower_byte x) (lower_byte y) && equal_fold a' b'
  | _, _ => false
  end.

(** What is asked of the Unicode branch of [strings.ToUpper]: a string with
    a byte outside ASCII is never mapped to ["OK"] (no letter outside ASCII
    has [O] or [K] as its upper case, and an invalid byte is mapped to
    U+FFFD). *)
Definition unicode_upper_ok (up : string -> string) : Prop :=
  forall s, GoStrings.isASCII s = false -> up s <> "OK".

(** The layout [YYYY-MM-DDThh:mm:ssZ] of an instant, in UTC. *)
Definition two_digits (v : Z) : string :=
  String (Fmt.digit (v / 10)) (String (Fmt.digit (v mod 10)) "").

Definition four_digits (v : Z) : string :=
  String (Fmt.digit (v / 1000)) (String (Fmt.digit (v / 100 mod 10))
    (String (Fmt.digit (v / 10 mod 10)) (String (Fmt.digit (v mod 10)) ""))).

Definition timestamp_layout (t : Time.t) : string :=
  let gmt := Time.UTC t in
  four_digits (Time.Year gmt) +:+ "-" +:+ two_digits (Time.Month gmt) +:+ "-"
  +:+ two_digits (Time.Day gmt) +:+ "T" +:+ two_digits (Time.Hour gmt) +:+ ":"
  +:+ two_digits (Time.Minute gmt) +:+ ":" +:+ two_digits (Time.Second gmt)
  +:+ "Z".

(** ** Concrete inputs *)

(** The scenario of the specification. *)
Definition golden : Client :=
  {| accessKeySecret := "testsecret";
     Params := list_to_map
       [("AccessKeyId", "id1"); ("Timestamp", "2017-01-01T00:00:00Z");
        ("SignatureMethod", "HMAC-SHA1"); ("SignatureVersion", "1.0");
        ("SignatureNonce", "abc"); ("Format", "JSON"); ("Action", "SendSms");
        ("Version", "2017-05-25"); ("RegionId", "cn-hangzhou");
        ("PhoneNumbers", "13800138000"); ("SignName", "test");
        ("TemplateCode", "SMS_1"); ("TemplateParam", "{}")] |}.

(** A map with the keys ["a"] and ["{"]: the raw keys and their escapes
    ["a"] and ["%7B"] are in opposite orders. *)
Definition brace_client : Client :=
  {| accessKeySecret := "s"; Params := <["a" := "1"]> (<["{" := "2"]> ∅) |}.

(** A map with a value that contains a space. *)
Definition space_client : Client :=
  {| accessKeySecret := "s"; Params := <["a" := "b c"]> ∅ |}.

(** A client into whose exported map the caller has written a
    ["Signature"] entry: [c.Params["Signature"] = "x"]. *)
Definition signature_client : Client :=
  set_Params (NewClient "id1" "testsecret") "Signature" "x".

(** 2017-01-01T00:00:00Z, seen from a zone eight hours east. *)
Definition new_year_2017 : Time.t :=
  {| Time.unix := 1483228800; Time.offset := 28800 |}.

(** The first second of the year 10000. *)
Definition year_10000 : Time.t :=
  {| Time.unix := 253402300800; Time.offset := 0 |}.

Definition empty_Response : Response :=
  {| RequestID := ""; Code := ""; Message := ""; BizID := "" |}.

(** A world in which every step succeeds and the service answers with the
    code [code]. *)
Definition answering (code : string) : World :=
  {| time_Now := new_year_2017;
     uuid_New := ("abc", None);
     http_NewRequest := fun m u => Ok {| Method := m; RequestURL := u |};
     client_Do := fun _ => Ok {| StatusCode := 200; Body := Ok "{}" |};
     json_Unmarshal := fun _ r =>
       Ok {| RequestID := "8906582E-6722"; Code := code;
             Message := code; BizID := "" |};
     unicode_upper := fun s => s |}.

(** A world in which the transport fails. *)
Definition unreachable : World :=
  {| time_Now := new_year_2017;
     uuid_New := ("abc", None);
     http_NewRequest := fun m u => Ok {| Method := m; RequestURL := u |};
     client_Do := fun _ => Err "dial tcp: no route to host";
     json_Unmarshal := fun _ r => Ok r;
     unicode_upper := fun s => s |}.

(** Every byte of a string satisfies a test. *)
Fixpoint all_bytes (p : ascii -> bool) (s : string) : bool :=
  match s with
  | "" => true
  | String c s' => p c && all_bytes p s'
  end.

(** The bytes that may stand in a query component as they are, and the
    ['%'] that introduces an escape. *)
Definition url_safe (c : ascii) : bool :=
  negb (URL.shouldEscape c) || Ascii.eqb c "%".

(** The twelve protocol fields every [Send] writes. *)
Definition written_keys : list string :=
  ["Timestamp"; "Format"; "SignatureMethod"; "SignatureVersion";
   "SignatureNonce"; "Action"; "Version"; "RegionId"; "PhoneNumbers";
   "SignName"; "TemplateCode"; "TemplateParam"].

(** The constructor of package [message] that corresponds to a constructor
    of package [sms]; [message] has no [OutID]. *)
Definition message_call (p : ParamCall) : option Message.Param :=
  match p with
  | CallTimestamp t => Some (Message.Timestamp t)
  | CallSignatureMethod m => Some (Message.SignatureMethod m)
  | CallSignatureVersion v => Some (Message.SignatureVersion v)
  | CallSignatureNonce nonce => Some (Message.SignatureNonce nonce)
  | CallAction action => Some (Message.Action action)
  | CallVersion v => Some (Message.Version v)
  | CallRegionID ID => Some (Message.RegionID ID)
  | CallOutID _ => None
  end.

(** The [url.Values] that holds each parameter of a client as a one-element
    slice. *)
Definition values_of (c : Client) : gmap string (list string) :=
  (fun v => [v]) <$> Params c.

(** * Properties *)

(** ** Strings *)

Lemma sapp_nil_l (s : string) : "" +:+ s = s.
Proof. reflexivity. Qed.

Lemma sapp_cons (c : ascii) (s t : string) :
  String c s +:+ t = String c (s +:+ t).
Proof. reflexivity. Qed.

Lemma sapp_nil_r (s : string) : s +:+ "" = s.
Proof. induction s as [|c s IH]; [reflexivity|]. by rewrite sapp_cons, IH. Qed.

Lemma sapp_assoc (s t u : string) : (s +:+ t) +:+ u = s +:+ t +:+ u.
Proof.
  induction s as [|c s IH]; [reflexivity|]. by rewrite !sapp_cons, IH.
Qed.

Lemma slength_app (s t : string) :
  String.length (s +:+ t) = (String.length s + String.length t)%nat.
Proof.
  induction s as [|c s IH]; [reflexivity|]. rewrite sapp_cons. simpl. by rewrite IH.
Qed.

Lemma prefix_nil (s : string) : String.prefix "" s = true.
Proof. by destruct s. Qed.

Lemma prefix_cons (a b : ascii) (p s : string) :
  String.prefix (String a p) (String b s) = Ascii.eqb a b && String.prefix p s.
Proof.
  simpl. destruct (ascii_dec a b) as [->|Hne].
  - by rewrite Ascii.eqb_refl.
  - apply Ascii.eqb_neq in Hne. by rewrite Hne.
Qed.

Lemma has_byte_app (b : ascii) (s t : string) :
  has_byte b (s +:+ t) = has_byte b s || has_byte b t.
Proof.
  induction s as [|c s IH]; [reflexivity|].
  rewrite sapp_cons. simpl. rewrite IH. by rewrite orb_assoc.
Qed.

(** [Contains] of a one-byte string is membership of the byte. *)
Lemma Contains_byte (s : string) (b : ascii) :
  GoStrings.Contains s (String b "") = has_byte b s.
Proof.
  induction s as [|c s IH]; [reflexivity|].
  cbn [GoStrings.Contains has_byte]. unfold GoStrings.HasPrefix.
  rewrite prefix_cons, prefix_nil, IH, andb_true_r.
  by rewrite (Ascii.eqb_sym b c).
Qed.

(** ** [strings.Replace] *)

(** With no limit the budget plays no role. *)
Lemma replace_loop_budget (old new : string) (n n' : Z) (k : nat) (s : string) :
  n < 0 -> n' < 0 ->
  GoStrings.replace_loop old new n k s = GoStrings.replace_loop old new n' k s.
Proof.
  revert n n' k. induction s as [|c s IH]; intros n n' k Hn Hn'; [reflexivity|].
  destruct k as [|k]; cbn [GoStrings.replace_loop].
  - replace (n =? 0) with false by lia. replace (n' =? 0) with false by lia.
    cbn [negb andb]. destruct (GoStrings.HasPrefix (String c s) old).
    + f_equal. apply IH; lia.
    + f_equal. by apply IH.
  - by apply IH.
Qed.

(** ** The escaper, byte by byte *)

Ltac each_byte c := destruct c as [[] [] [] [] [] [] [] []].

Lemma QueryEscape_app (s t : string) :
  URL.QueryEscape (s +:+ t) = URL.QueryEscape s +:+ URL.QueryEscape t.
Proof.
  induction s as [|c s IH]; [reflexivity|].
  rewrite sapp_cons. simpl. by rewrite IH, sapp_assoc.
Qed.

Lemma replace_plus_byte (c : ascii) (rest : string) :
  GoStrings.replace_loop "+" "%20" (-1) 0 (URL.escape_byte c +:+ rest)
  = special_byte c +:+ GoStrings.replace_loop "+" "%20" (-1) 0 rest.
Proof.
  assert (Hsp : GoStrings.replace_loop "+" "%20" (-2) 0 rest
                = GoStrings.replace_loop "+" "%20" (-1) 0 rest)
    by (apply replace_loop_budget; lia).
  each_byte c; try reflexivity.
  change (URL.escape_byte " " +:+ rest) with (String "+" rest).
  cbn [GoStrings.replace_loop]. unfold GoStrings.HasPrefix.
  rewrite prefix_cons, prefix_nil.
  change (GoStrings.replace_loop "+" "%20" (-2) 0 rest
          = GoStrings.replace_loop "+" "%20" (-1) 0 rest) in Hsp.
  exact (f_equal (String.append "%20") Hsp).
Qed.

Lemma replace_star_byte (c : ascii) (rest : string) :
  GoStrings.replace_loop "*" "%2A" (-1) 0 (special_byte c +:+ rest)
  = special_byte c +:+ GoStrings.replace_loop "*" "%2A" (-1) 0 rest.
Proof. each_byte c; reflexivity. Qed.

Lemma replace_tilde_byte (c : ascii) (rest : string) :
  GoStrings.replace_loop "%7E" "~" (-1) 0 (special_byte c +:+ rest)
  = special_byte c +:+ GoStrings.replace_loop "%7E" "~" (-1) 0 rest.
Proof. each_byte c; reflexivity. Qed.

Lemma replace_plus_QueryEscape (str : string) :
  GoStrings.replace_loop "+" "%20" (-1) 0 (URL.QueryEscape str) = special str.
Proof.
  induction str as [|c s IH]; [reflexivity|].
  cbn [URL.QueryEscape special]. by rewrite replace_plus_byte, IH.
Qed.

Lemma replace_star_special (str : string) :
  GoStrings.replace_loop "*" "%2A" (-1) 0 (special str) = special str.
Proof.
  induction str as [|c s IH]; [reflexivity|].
  cbn [special]. by rewrite replace_star_byte, IH.
Qed.

Lemma replace_tilde_special (str : string) :
  GoStrings.replace_loop "%7E" "~" (-1) 0 (special str) = special str.
Proof.
  induction str as [|c s IH]; [reflexivity|].
  cbn [special]. by rewrite replace_tilde_byte, IH.
Qed.

(** The three corrections together turn the generic escape of a space into
    [%20] and change nothing else: [*] is already [%2A] and [~] is never
    escaped by [url.QueryEscape]. *)
Lemma SpecialURLEncode_special (str : string) :
  SpecialURLEncode str = special str.
Proof.
  unfold SpecialURLEncode, GoStrings.Replace.
  change (String.eqb "+" "%20" || (-1 =? 0)) with false.
  change (String.eqb "*" "%2A" || (-1 =? 0)) with false.
  change (String.eqb "%7E" "~" || (-1 =? 0)) with false.
  cbv iota. change (String.eqb "+" "") with false.
  change (String.eqb "*" "") with false.
  change (String.eqb "%7E" "") with false. cbv iota zeta.
  by rewrite replace_plus_QueryEscape, replace_star_special,
    replace_tilde_special.
Qed.

Lemma special_no_plus (c : ascii) (rest : string) :
  GoStrings.Contains (special_byte c +:+ rest) "+" = GoStrings.Contains rest "+".
Proof. each_byte c; reflexivity. Qed.

Lemma special_no_star (c : ascii) (rest : string) :
  GoStrings.Contains (special_byte c +:+ rest) "*" = GoStrings.Contains rest "*".
Proof. each_byte c; reflexivity. Qed.

Lemma special_no_7E (c : ascii) (rest : string) :
  GoStrings.Contains (special_byte c +:+ rest) "%7E"
  = GoStrings.Contains rest "%7E".
Proof. each_byte c; reflexivity. Qed.

(** The corrected escape is free of ['+'], of ['*'] and of [%7E]. *)
Lemma SpecialURLEncode_clean (str : string) :
  GoStrings.Contains (SpecialURLEncode str) "+" = false
  /\ GoStrings.Contains (SpecialURLEncode str) "*" = false
  /\ GoStrings.Contains (SpecialURLEncode str) "%7E" = false.
Proof.
  rewrite SpecialURLEncode_special.
  induction str as [|c s (IHp & IHs & IHt)]; [by repeat split|].
  cbn [special].
  by rewrite special_no_plus, special_no_star, special_no_7E.
Qed.

(** ** [url.QueryEscape] *)

Lemma QueryUnescape_byte (c : ascii) (rest : string) :
  QueryUnescape (URL.escape_byte c +:+ rest) = String c (QueryUnescape rest).
Proof. each_byte c; reflexivity. Qed.

(** Escaping loses nothing: unescaping gives the string back. *)
Lemma QueryUnescape_QueryEscape (s : string) :
  QueryUnescape (URL.QueryEscape s) = s.
Proof.
  induction s as [|c s IH]; [reflexivity|].
  cbn [URL.QueryEscape]. by rewrite QueryUnescape_byte, IH.
Qed.

Lemma QueryEscape_inj (s t : string) :
  URL.QueryEscape s = URL.QueryEscape t -> s = t.
Proof.
  intros H. rewrite <- (QueryUnescape_QueryEscape s), H.
  apply QueryUnescape_QueryEscape.
Qed.

Lemma escape_byte_has (b c : ascii) (rest : string) :
  b = "&"%char \/ b = "="%char \/ b = " "%char \/ b = "*"%char ->
  has_byte b (URL.escape_byte c +:+ rest) = has_byte b rest.
Proof. intros [->|[->|[->| ->]]]; each_byte c; reflexivity. Qed.

(** The generic escape never contains ['&'], ['='], a space or ['*']. *)
Lemma QueryEscape_has (b : ascii) (s : string) :
  b = "&"%char \/ b = "="%char \/ b = " "%char \/ b = "*"%char ->
  has_byte b (URL.QueryEscape s) = false.
Proof.
  intros Hb. induction s as [|c s IH]; [reflexivity|].
  cbn [URL.QueryEscape]. by rewrite escape_byte_has.
Qed.

Lemma escape_byte_plus (c : ascii) (rest : string) :
  has_byte "+" (URL.escape_byte c +:+ rest)
  = Ascii.eqb c " " || has_byte "+" rest.
Proof. each_byte c; reflexivity. Qed.

(** It contains a ['+'] exactly when the input contains a space. *)
Lemma QueryEscape_plus (s : string) :
  has_byte "+" (URL.QueryEscape s) = has_byte " " s.
Proof.
  induction s as [|c s IH]; [reflexivity|].
  cbn [URL.QueryEscape has_byte]. by rewrite escape_byte_plus, IH.
Qed.

Lemma special_byte_no_space (c : ascii) :
  Ascii.eqb c " " = false -> special_byte c = URL.escape_byte c.
Proof. unfold special_byte. by intros ->. Qed.

(** On a string without spaces the corrected escape is the generic one. *)
Lemma special_no_space (s : string) :
  has_byte " " s = false -> special s = URL.QueryEscape s.
Proof.
  induction s as [|c s IH]; [reflexivity|].
  cbn [has_byte special URL.QueryEscape]. intros [Hc Hs]%orb_false_elim.
  by rewrite special_byte_no_space, IH.
Qed.

Lemma SpecialURLEncode_no_space (s : string) :
  has_byte " " s = false -> SpecialURLEncode s = URL.QueryEscape s.
Proof. intros H. rewrite SpecialURLEncode_special. by apply special_no_space. Qed.

(** With a space it is not: the generic escape has a ['+'] there. *)
Lemma SpecialURLEncode_space (s : string) :
  has_byte " " s = true -> SpecialURLEncode s <> URL.QueryEscape s.
Proof.
  intros Hs Heq.
  destruct (SpecialURLEncode_clean s) as (Hp & _).
  rewrite Heq, Contains_byte, QueryEscape_plus in Hp. congruence.
Qed.

Lemma escape_byte_length (c : ascii) :
  (1 <= String.length (URL.escape_byte c))%nat.
Proof. each_byte c; cbv; lia. Qed.

Lemma QueryEscape_length (s : string) :
  (String.length s <= String.length (URL.QueryEscape s))%nat.
Proof.
  induction s as [|c s IH]; [reflexivity|].
  cbn [URL.QueryEscape]. rewrite slength_app.
  pose proof (escape_byte_length c). simpl. lia.
Qed.

Lemma escape_byte_length_hex (c : ascii) :
  c = "="%char \/ c = "%"%char -> String.length (URL.escape_byte c) = 3%nat.
Proof. by intros [->| ->]. Qed.

(** A string with a ['='] or a ['%'] grows when it is escaped. *)
Lemma QueryEscape_grows (b : ascii) (s : string) :
  b = "="%char \/ b = "%"%char -> has_byte b s = true ->
  (String.length s < String.length (URL.QueryEscape s))%nat.
Proof.
  intros Hb. induction s as [|c s IH]; [done|].
  cbn [has_byte URL.QueryEscape]. rewrite slength_app. simpl String.length.
  destruct (Ascii.eqb_spec c b) as [->|Hne]; simpl.
  - intros _. rewrite (escape_byte_length_hex b Hb).
    pose proof (QueryEscape_length s). lia.
  - intros Hs. pose proof (escape_byte_length c). specialize (IH Hs). lia.
Qed.

Lemma escape_byte_percent (c : ascii) (rest : string) :
  c = "="%char -> has_byte "%" (URL.escape_byte c +:+ rest) = true.
Proof. by intros ->. Qed.

Lemma QueryEscape_percent (s : string) :
  has_byte "=" s = true -> has_byte "%" (URL.QueryEscape s) = true.
Proof.
  induction s as [|c s IH]; [done|].
  cbn [has_byte URL.QueryEscape].
  destruct (Ascii.eqb_spec c "=") as [->|Hne]; simpl; [done|].
  intros Hs. rewrite has_byte_app, (IH Hs). apply orb_true_r.
Qed.

(** ** [Values.Encode] and [SortedQueryStr] *)

Lemma fst_wrap (l : list (string * string)) :
  (prod_map id (fun v : string => [v]) <$> l).*1 = l.*1.
Proof. induction l as [|[k v] l IH]; [done|]. cbn. by f_equal. Qed.

(** Whatever the order in which the entries of the parameter map are
    visited, the [url.Values] built from them holds each value as a
    one-element slice. *)
Lemma values_of_entries (m : gmap string string) (entries : list (string * string)) :
  entries ≡ₚ map_to_list m ->
  foldl (fun values kv => URL.Values_Set values kv.1 kv.2) ∅ entries
  = (fun v => [v]) <$> m.
Proof.
  intros Hperm.
  assert (Hfold : forall l : list (string * string),
    foldl (fun values kv => URL.Values_Set values kv.1 kv.2) ∅ l
    = list_to_map (reverse (prod_map id (fun v => [v]) <$> l))).
  { induction l as [|x l IH] using rev_ind; [reflexivity|].
    rewrite foldl_snoc, fmap_app, reverse_app, IH. by destruct x. }
  rewrite Hfold.
  transitivity (list_to_map (M := gmap string (list string))
                  (prod_map id (fun v => [v]) <$> map_to_list m)).
  2: { by rewrite list_to_map_fmap, list_to_map_to_list. }
  apply list_to_map_proper.
  - rewrite fmap_reverse, reverse_Permutation, fst_wrap, Hperm.
    apply NoDup_fst_map_to_list.
  - by rewrite reverse_Permutation, Hperm.
Qed.

(** Sorting makes the order in which the keys were collected
    irrelevant. *)
Lemma merge_sort_perm (l1 l2 : list string) :
  l1 ≡ₚ l2 -> merge_sort String.le l1 = merge_sort String.le l2.
Proof.
  intros Hperm. apply (Sorted_unique String.le).
  - apply Sorted_merge_sort, _.
  - apply Sorted_merge_sort, _.
  - by rewrite !merge_sort_Permutation.
Qed.

Lemma Encode_range_perm (v : gmap string (list string)) (keys : list string) :
  keys ≡ₚ (map_to_list v).*1 -> URL.Encode_range v keys = URL.Encode v.
Proof.
  intros Hperm. unfold URL.Encode, URL.Encode_range.
  by rewrite (merge_sort_perm _ _ Hperm).
Qed.

Lemma Encode_key_single (m : gmap string string) (buf k : string) :
  is_Some (m !! k) ->
  URL.Encode_key ((fun v => [v]) <$> m) buf k
  = (if (0 <? String.length buf)%nat then buf +:+ "&" else buf)
    +:+ pair_str m k.
Proof.
  intros [x Hx]. unfold URL.Encode_key, pair_str.
  rewrite lookup_fmap, Hx. reflexivity.
Qed.

Lemma pair_str_length (m : gmap string string) (k : string) :
  (0 < String.length (pair_str m k))%nat.
Proof. unfold pair_str. rewrite !slength_app. simpl. lia. Qed.

Lemma Encode_fold_nonempty (m : gmap string string) (ks : list string) (buf : string) :
  (0 < String.length buf)%nat ->
  Forall (fun k => is_Some (m !! k)) ks ->
  foldl (URL.Encode_key ((fun v => [v]) <$> m)) buf ks = buf +:+ amp_pairs m ks.
Proof.
  intros Hbuf Hks. revert buf Hbuf.
  induction Hks as [|k ks Hk _ IH]; intros buf Hbuf.
  - by rewrite sapp_nil_r.
  - cbn [foldl amp_pairs]. rewrite Encode_key_single by done.
    replace (0 <? String.length buf)%nat with true
      by (symmetry; by apply Nat.ltb_lt).
    rewrite IH, !sapp_assoc; [done|].
    rewrite !slength_app. lia.
Qed.

Lemma Encode_fold (m : gmap string string) (k : string) (ks : list string) :
  Forall (fun k => is_Some (m !! k)) (k :: ks) ->
  foldl (URL.Encode_key ((fun v => [v]) <$> m)) "" (k :: ks)
  = pair_str m k +:+ amp_pairs m ks.
Proof.
  intros [Hk Hks]%Forall_cons. cbn [foldl].
  rewrite Encode_key_single by done. cbn [String.length Nat.ltb Nat.leb].
  rewrite sapp_nil_l. apply Encode_fold_nonempty; [apply pair_str_length|done].
Qed.

Lemma sorted_keys_perm (m : gmap string string) :
  sorted_keys m ≡ₚ (map_to_list m).*1.
Proof. apply merge_sort_Permutation. Qed.

Lemma sorted_keys_lookup (m : gmap string string) :
  Forall (fun k => is_Some (m !! k)) (sorted_keys m).
Proof.
  apply Forall_forall. intros k Hk. rewrite sorted_keys_perm in Hk.
  apply list_elem_of_fmap in Hk as [[k' x] [-> Hin]].
  apply elem_of_map_to_list in Hin. by exists x.
Qed.

(** [SortedQueryStr] is the empty string for the empty map and otherwise the
    pairs, in ascending order of the raw keys, joined by ['&']. *)
Lemma SortedQueryStr_range_pairs (m : gmap string string) (entries : list (string * string)) :
  entries ≡ₚ map_to_list m ->
  SortedQueryStr_range entries
  = match sorted_keys m with
    | [] => ""
    | k :: ks => pair_str m k +:+ amp_pairs m ks
    end.
Proof.
  intros Hperm. unfold SortedQueryStr_range.
  rewrite (values_of_entries m entries Hperm).
  unfold URL.Encode, URL.Encode_range.
  rewrite map_to_list_fmap, fst_wrap.
  fold (sorted_keys m). rewrite map_size_fmap.
  pose proof (sorted_keys_lookup m) as Hl.
  pose proof (sorted_keys_perm m) as Hp.
  destruct (sorted_keys m) as [|k ks] eqn:Hks.
  - by destruct (size m =? 0)%nat.
  - destruct (Nat.eqb_spec (size m) 0) as [Hz|Hnz].
    + apply map_size_empty_inv in Hz. subst m.
      rewrite map_to_list_empty in Hp. by apply Permutation_nil_r in Hp.
    + by apply Encode_fold.
Qed.

Lemma SortedQueryStr_pairs (c : Client) :
  SortedQueryStr c
  = match sorted_keys (Params c) with
    | [] => ""
    | k :: ks => pair_str (Params c) k +:+ amp_pairs (Params c) ks
    end.
Proof. by apply SortedQueryStr_range_pairs. Qed.

(** The order in which Go happens to visit the map does not matter. *)
Lemma SortedQueryStr_range_order (c : Client) (entries : list (string * string)) :
  entries ≡ₚ map_to_list (Params c) ->
  SortedQueryStr_range entries = SortedQueryStr c.
Proof.
  intros H. by rewrite SortedQueryStr_pairs, (SortedQueryStr_range_pairs _ _ H).
Qed.

(** ** Reading the pairs back *)

Lemma split_no_sep (sep : ascii) (p : string) :
  has_byte sep p = false -> split sep p = [p].
Proof.
  induction p as [|c p IH]; [done|].
  cbn [has_byte split]. intros [Hc Hp]%orb_false_elim.
  by rewrite Hc, (IH Hp).
Qed.

Lemma split_app (sep : ascii) (p rest : string) :
  has_byte sep p = false ->
  split sep (p +:+ String sep rest) = p :: split sep rest.
Proof.
  induction p as [|c p IH].
  - intros _. rewrite sapp_nil_l. cbn [split]. by rewrite Ascii.eqb_refl.
  - cbn [has_byte]. intros [Hc Hp]%orb_false_elim.
    rewrite sapp_cons. cbn [split]. by rewrite Hc, (IH Hp).
Qed.

Lemma cut_app (sep : ascii) (a b : string) :
  has_byte sep a = false -> cut sep (a +:+ String sep b) = (a, b).
Proof.
  induction a as [|c a IH].
  - intros _. rewrite sapp_nil_l. cbn [cut]. by rewrite Ascii.eqb_refl.
  - cbn [has_byte]. intros [Hc Ha]%orb_false_elim.
    rewrite sapp_cons. cbn [cut]. by rewrite Hc, (IH Ha).
Qed.

Lemma pair_str_no_amp (m : gmap string string) (k : string) :
  has_byte "&" (pair_str m k) = false.
Proof.
  unfold pair_str. rewrite !has_byte_app, !QueryEscape_has by auto. done.
Qed.

Lemma cut_pair_str (m : gmap string string) (k : string) :
  cut "=" (pair_str m k)
  = (URL.QueryEscape k, URL.QueryEscape (default "" (m !! k))).
Proof. unfold pair_str. apply cut_app, QueryEscape_has. auto. Qed.

Lemma split_pairs (m : gmap string string) (k : string) (ks : list string) :
  split "&" (pair_str m k +:+ amp_pairs m ks) = pair_str m <$> (k :: ks).
Proof.
  revert k. induction ks as [|k' ks IH]; intros k.
  - cbn [amp_pairs]. rewrite sapp_nil_r. apply split_no_sep, pair_str_no_amp.
  - cbn [amp_pairs]. change ("&" +:+ ?s) with (String "&" s).
    rewrite split_app by apply pair_str_no_amp. by rewrite IH.
Qed.

Lemma eqb_nonempty (s : string) :
  (0 < String.length s)%nat -> String.eqb s "" = false.
Proof. destruct s; simpl; [lia|done]. Qed.

(** The pairs of the canonical query string are the entries of the map in
    ascending order of the raw keys, each key and each value passed through
    [url.QueryEscape]. *)
Lemma pairs_of_SortedQueryStr (c : Client) :
  pairs_of (SortedQueryStr c)
  = (fun kv => (URL.QueryEscape kv.1, URL.QueryEscape kv.2))
      <$> sorted_entries (Params c).
Proof.
  rewrite SortedQueryStr_pairs. unfold sorted_entries, pairs_of.
  destruct (sorted_keys (Params c)) as [|k ks]; [done|].
  rewrite eqb_nonempty
    by (rewrite slength_app; pose proof (pair_str_length (Params c) k); lia).
  rewrite split_pairs, <- !list_fmap_compose.
  apply list_fmap_ext. intros _ k' _. apply cut_pair_str.
Qed.

Lemma sorted_entries_perm (m : gmap string string) :
  sorted_entries m ≡ₚ map_to_list m.
Proof.
  unfold sorted_entries. rewrite sorted_keys_perm, <- list_fmap_compose.
  assert (Heq : (fun k => (k, default "" (m !! k))) ∘ fst <$> map_to_list m
                = map_to_list m).
  { rewrite <- (list_fmap_id (map_to_list m)) at 2.
    apply list_fmap_ext. intros _ [k v] Hin%list_elem_of_lookup_2.
    apply elem_of_map_to_list in Hin. cbn. by rewrite Hin. }
  by rewrite Heq.
Qed.

Lemma sorted_entries_keys (m : gmap string string) :
  (sorted_entries m).*1 = sorted_keys m.
Proof.
  unfold sorted_entries. rewrite <- list_fmap_compose.
  rewrite <- (list_fmap_id (sorted_keys m)) at 2. by apply list_fmap_ext.
Qed.

Lemma compare_refl (s : string) : String.compare s s = Eq.
Proof.
  pose proof (String.compare_antisym s s) as Ha.
  destruct (String.compare s s); [done| |]; discriminate Ha.
Qed.

Lemma str_lt_le_ne (a b : string) : String.le a b -> a <> b -> str_lt a b.
Proof.
  unfold String.le, str_lt, String.leb, String.ltb. intros Hle Hne.
  destruct (String.compare a b) eqn:Hc; [|done|done].
  by apply String.compare_eq_iff in Hc.
Qed.

Lemma str_lt_irrefl (a : string) : ~ str_lt a a.
Proof. unfold str_lt, String.ltb. by rewrite compare_refl. Qed.

(** The raw keys come out strictly ascending. *)
Lemma sorted_keys_strict (m : gmap string string) :
  StronglySorted str_lt (sorted_keys m).
Proof.
  assert (Hs : StronglySorted String.le (sorted_keys m))
    by (apply StronglySorted_merge_sort; apply _).
  assert (Hn : NoDup (sorted_keys m))
    by (rewrite sorted_keys_perm; apply NoDup_fst_map_to_list).
  induction Hs as [|k ks Hs IH Hall]; [constructor|].
  apply NoDup_cons in Hn as [Hk Hn].
  constructor; [by apply IH|].
  apply Forall_forall. intros k' Hin.
  apply str_lt_le_ne; [by eapply Forall_forall in Hall|].
  intros ->. done.
Qed.

(** ** Digest and base64 *)

Lemma hmac_sha1_rfc2104 (key msg : string) :
  hmac_sha1 key msg = hmac_rfc2104 (bytes_of_string key) (bytes_of_string msg).
Proof. reflexivity. Qed.

Lemma SHA1_Sum_length (msg : list Z) : length (SHA1.Sum msg) = 20%nat.
Proof.
  unfold SHA1.Sum.
  destruct (fold_left SHA1.block _ SHA1.init) as [[[[h0 h1] h2] h3] h4].
  reflexivity.
Qed.

Lemma hmac_sha1_length (key msg : string) : length (hmac_sha1 key msg) = 20%nat.
Proof. rewrite hmac_sha1_rfc2104. apply SHA1_Sum_length. Qed.

(** Induction three bytes at a time, as [EncodeToString] consumes its
    input. *)
Lemma list_ind3 (P : list Z -> Prop) :
  P [] -> (forall a, P [a]) -> (forall a b, P [a; b]) ->
  (forall a b c l, P l -> P (a :: b :: c :: l)) ->
  forall l, P l.
Proof.
  intros H0 H1 H2 H3.
  assert (H : forall l, P l /\ (forall a, P (a :: l)) /\ (forall a b, P (a :: b :: l))).
  { induction l as [|x l (IH0 & IH1 & IH2)]; [by repeat split|].
    split; [apply IH1|]. split; [intros a; apply IH2|].
    intros a b. by apply H3. }
  intros l. apply H.
Qed.

Lemma enc_not_space (i : Z) : Ascii.eqb (Base64.enc i) " " = false.
Proof.
  unfold Base64.enc. generalize (Z.to_nat i) as n. intros n.
  do 64 (destruct n as [|n]; [reflexivity|]). reflexivity.
Qed.

(** Base64 text has no space. *)
Lemma EncodeToString_no_space (src : list Z) :
  has_byte " " (Base64.EncodeToString src) = false.
Proof.
  induction src as [|a|a b|a b c l IH] using list_ind3;
    cbn [Base64.EncodeToString has_byte]; rewrite ?enc_not_space, ?IH; done.
Qed.

(** When the input is not a multiple of three bytes, it ends in ['=']. *)
Lemma EncodeToString_padding (src : list Z) :
  (length src mod 3 <> 0)%nat ->
  has_byte "=" (Base64.EncodeToString src) = true.
Proof.
  induction src as [|a|a b|a b c l IH] using list_ind3; intros Hlen.
  - done.
  - cbn [Base64.EncodeToString has_byte]. by rewrite !orb_true_r.
  - cbn [Base64.EncodeToString has_byte]. by rewrite !orb_true_r.
  - cbn [Base64.EncodeToString has_byte]. rewrite IH; [by rewrite !orb_true_r|].
    intros Hl. apply Hlen. cbn [length].
    replace (S (S (S (length l)))) with (length l + 1 * 3)%nat by lia.
    by rewrite Nat.Div0.mod_add.
Qed.

Lemma digest_base64_padding (key msg : string) :
  has_byte "=" (Base64.EncodeToString (hmac_sha1 key msg)) = true.
Proof.
  apply EncodeToString_padding. by rewrite hmac_sha1_length.
Qed.

(** ** The two [SignedString] *)

(** The string both revisions sign. *)
Lemma QueryEscape_slash : URL.QueryEscape "/" = "%2F".
Proof. reflexivity. Qed.

(** On base64 text the corrections change nothing: the signature of the
    newer revision is the generic escape of the digest. *)
Lemma Client_SignedString_QueryEscape (c : Client) :
  Client.SignedString c
  = URL.QueryEscape
      (Base64.EncodeToString
         (hmac_sha1 (accessKeySecret c +:+ "&")
            ("GET&%2F&" +:+ SpecialURLEncode (SortedQueryStr c)))).
Proof.
  unfold Client.SignedString. cbv zeta.
  by rewrite SpecialURLEncode_no_space by apply EncodeToString_no_space.
Qed.

(** The older revision escapes that once more. *)
Lemma SMS_SignedString_QueryEscape (c : Client) :
  SMS.SignedString c = URL.QueryEscape (Client.SignedString c).
Proof.
  rewrite Client_SignedString_QueryEscape. unfold SMS.SignedString. cbv zeta.
  by rewrite SpecialURLEncode_no_space by (apply QueryEscape_has; auto).
Qed.

Lemma SignedString_differ (c : Client) :
  SMS.SignedString c <> Client.SignedString c.
Proof.
  rewrite SMS_SignedString_QueryEscape. intros Heq.
  pose proof (QueryEscape_grows "%" (Client.SignedString c)) as Hgrow.
  rewrite Heq in Hgrow. 
  enough (has_byte "%" (Client.SignedString c) = true) by (specialize (Hgrow ltac:(auto) ltac:(done)); lia).
  rewrite Client_SignedString_QueryEscape.
  apply QueryEscape_percent, digest_base64_padding.
Qed.

(** ** [Send]: the parameter map at signing time *)

Lemma SetTimestamp_GenTimestamp (c : Client) (t : Time.t) :
  SetTimestamp c t = set_Params c "Timestamp" (Message.GenTimestamp t).
Proof. unfold SetTimestamp, Message.GenTimestamp. cbv zeta. reflexivity. Qed.

Lemma call_set (p : ParamCall) (c : Client) :
  f (call p) c = set_Params c (override_key p) (override_value p).
Proof.
  destruct p; cbn [call f Timestamp override_key override_value];
    [apply SetTimestamp_GenTimestamp|reflexivity..].
Qed.

(** After the overrides a key holds the value of the last override that
    writes it, or what it held before. *)
Lemma overrides_lookup (ps : list ParamCall) (c : Client) (K : string) :
  Params (foldl (fun c param => f param c) c (call <$> ps)) !! K
  = match last_override K ps with
    | Some ov => Some ov
    | None => Params c !! K
    end.
Proof.
  unfold last_override. induction ps as [|p ps IH] using rev_ind; [done|].
  rewrite fmap_app, foldl_app, omap_app.
  cbn [fmap list_fmap omap list_omap foldl].
  rewrite call_set. cbn [set_Params Params].
  destruct (String.eqb_spec (override_key p) K) as [->|Hne].
  - by rewrite last_snoc, lookup_insert_eq.
  - rewrite app_nil_r, lookup_insert_ne by done. apply IH.
Qed.

Lemma PhoneNumbers_loop_Join (nums : list string) (i : Z) (str : string) :
  SetPhoneNumbers_loop (i + Z.of_nat (length nums)) i nums str
  = str +:+ Join nums ",".
Proof.
  revert i str. induction nums as [|num rest IH]; intros i str.
  - by rewrite sapp_nil_r.
  - cbn [SetPhoneNumbers_loop].
    replace (i + Z.of_nat (length (num :: rest)))
      with (i + 1 + Z.of_nat (length rest)) by (cbn [length]; lia).
    destruct rest as [|num' rest].
    + replace (i =? i + 1 + Z.of_nat (length []) - 1) with true
        by (symmetry; apply Z.eqb_eq; cbn [length]; lia).
      reflexivity.
    + replace (i =? i + 1 + Z.of_nat (length (num' :: rest)) - 1) with false
        by (symmetry; apply Z.eqb_neq; cbn [length]; lia).
      cbn [negb]. rewrite IH. cbn [Join]. by rewrite !sapp_assoc.
Qed.

(** [SetPhoneNumbers] stores the numbers joined by commas. *)
Lemma SetPhoneNumbers_Join (c : Client) (nums : list string) :
  SetPhoneNumbers c nums = set_Params c "PhoneNumbers" (Join nums ",").
Proof.
  unfold SetPhoneNumbers. cbv zeta.
  pose proof (PhoneNumbers_loop_Join nums 0 "") as H.
  rewrite Z.add_0_l, sapp_nil_l in H. by rewrite H.
Qed.

Ltac key_case K s :=
  destruct (String.eqb_spec K s) as [->|?];
  [ rewrite ?lookup_insert_eq; try reflexivity
  | rewrite (lookup_insert_ne _ s K) by done ].

(** What a key holds when the signature is computed: the required field,
    else the last override, else the default, else what the client held
    before the call. *)
Lemma Send_params_lookup (w : World) (c : Client) (phoneNumbers : list string)
    (signName templateCode templateParam : string) (ps : list ParamCall)
    (K : string) :
  Params (Send_params w c phoneNumbers signName templateCode templateParam
            (call <$> ps)) !! K
  = match required_field phoneNumbers signName templateCode templateParam K with
    | Some R => Some R
    | None =>
        match last_override K ps with
        | Some ov => Some ov
        | None =>
            match default_field w K with
            | Some D => Some D
            | None => Params c !! K
            end
        end
    end.
Proof.
  unfold Send_params, required_field, default_field.
  destruct (uuid_New w) as [UUID e]. cbn [fst].
  rewrite SetPhoneNumbers_Join, SetTimestamp_GenTimestamp.
  cbn [set_Params Params accessKeySecret].
  key_case K "TemplateParam". key_case K "TemplateCode".
  key_case K "SignName". key_case K "PhoneNumbers".
  rewrite overrides_lookup. cbn [String.eqb Ascii.eqb].
  destruct (last_override K ps) as [ov|]; [by repeat case_match|].
  cbn [set_Params Params].
  key_case K "RegionId". key_case K "Version". key_case K "Action".
  key_case K "SignatureNonce". key_case K "SignatureVersion".
  key_case K "SignatureMethod". key_case K "Format". key_case K "Timestamp".
  done.
Qed.

(** ** [Send]: the query string *)

Lemma Sprintf_Signature (sign query : string) :
  Fmt.Sprintf "Signature=%s&%s" [Fmt.Str sign; Fmt.Str query]
  = "Signature=" +:+ sign +:+ "&" +:+ query.
Proof.
  unfold Fmt.Sprintf. cbn [Fmt.doPrintf Ascii.eqb Bool.eqb].
  change (in_range "1" "9" "s") with false. cbv iota.
  unfold Fmt.verb. cbn [Ascii.eqb Bool.eqb]. cbv iota beta.
  unfold Fmt.fmt_string. cbn [Nat.sub Fmt.repeat_byte].
  by rewrite !sapp_nil_l, sapp_nil_r.
Qed.

Lemma Send_rawQuery_eq (SignedString : Client -> string) (c : Client) :
  Send_rawQuery SignedString c
  = "Signature=" +:+ SignedString c +:+ "&" +:+ SortedQueryStr c.
Proof. unfold Send_rawQuery. cbv zeta. apply Sprintf_Signature. Qed.

Lemma Send_url_String (rawQuery : string) :
  (0 < String.length rawQuery)%nat ->
  URL.String_ (Send_url rawQuery) = "http://dysmsapi.aliyuncs.com/?" +:+ rawQuery.
Proof.
  intros Hlen. unfold URL.String_, Send_url.
  cbn [URL.Scheme URL.Host URL.Path URL.RawQuery].
  rewrite (eqb_nonempty rawQuery Hlen). reflexivity.
Qed.

(** No exported override writes the key ["Signature"]. *)
Lemma last_override_Signature (ps : list ParamCall) :
  last_override "Signature" ps = None.
Proof.
  unfold last_override.
  replace (omap _ ps) with (@nil string); [done|].
  induction ps as [|p ps IH]; [done|].
  cbn [omap list_omap]. rewrite <- IH. by destruct p.
Qed.

(** [Send] never stores a ["Signature"] entry in the map. *)
Lemma Send_params_no_Signature (w : World) (c : Client)
    (phoneNumbers : list string) (signName templateCode templateParam : string)
    (ps : list ParamCall) :
  Params c !! "Signature" = None ->
  Params (Send_params w c phoneNumbers signName templateCode templateParam
            (call <$> ps)) !! "Signature" = None.
Proof.
  intros Hc. rewrite Send_params_lookup, last_override_Signature. exact Hc.
Qed.

Lemma reachable_no_Signature (c : Client) :
  reachable c -> Params c !! "Signature" = None.
Proof.
  induction 1 as [id secret|sg w c nums sn tc tp ps _ IH]; [done|].
  by apply Send_params_no_Signature.
Qed.

(** A key of the map appears among the encoded keys of the query string
    exactly as its escape; an unreserved key such as ["Signature"] appears
    only if it is in the map. *)
Lemma encoded_key_in (c : Client) (K : string) :
  URL.QueryEscape K ∈ (pairs_of (SortedQueryStr c)).*1 <->
  is_Some (Params c !! K).
Proof.
  rewrite pairs_of_SortedQueryStr, <- list_fmap_compose.
  split.
  - intros [[k v] [Hk Hin]]%list_elem_of_fmap. cbn in Hk.
    apply QueryEscape_inj in Hk as ->.
    rewrite sorted_entries_perm in Hin.
    apply elem_of_map_to_list in Hin. by exists v.
  - intros [v Hv]. apply list_elem_of_fmap. exists (K, v). split; [done|].
    rewrite sorted_entries_perm. by apply elem_of_map_to_list.
Qed.

(** ** [Send]: the outcome *)

Lemma upper_eq_fold (a b : ascii) :
  b = "O"%char \/ b = "K"%char ->
  Ascii.eqb (GoStrings.upper_byte a) b
  = Ascii.eqb (lower_byte a) (lower_byte b).
Proof. intros [->| ->]; each_byte a; reflexivity. Qed.

Lemma lower_fold_ascii (a b : ascii) :
  b = "O"%char \/ b = "K"%char ->
  Ascii.eqb (lower_byte a) (lower_byte b) = true -> (byte_val a <? 128) = true.
Proof. intros [->| ->]; each_byte a; (reflexivity || discriminate). Qed.

Lemma equal_fold_OK_ascii (code : string) :
  equal_fold code "OK" = true -> GoStrings.isASCII code = true.
Proof.
  destruct code as [|a [|b [|c rest]]];
    cbn [equal_fold GoStrings.isASCII]; rewrite ?andb_false_r; try done.
  intros [Ha [Hb _]%andb_true_iff]%andb_true_iff.
  rewrite (lower_fold_ascii a "O"), (lower_fold_ascii b "K") by auto. done.
Qed.

(** The test of [Send], [strings.ToUpper(code) == "OK"], is equality with
    ["OK"] up to the case of the letters. *)
Lemma ToUpper_OK (up : string -> string) (code : string) :
  unicode_upper_ok up ->
  String.eqb (GoStrings.ToUpper up code) "OK" = equal_fold code "OK".
Proof.
  intros Hup. unfold GoStrings.ToUpper.
  destruct (GoStrings.isASCII code) eqn:Hascii.
  - destruct code as [|a [|b [|c rest]]]; try reflexivity;
      cbn [GoStrings.map_bytes String.eqb equal_fold];
      rewrite ?(upper_eq_fold a "O"), ?(upper_eq_fold b "K") by auto;
      repeat (destruct (Ascii.eqb (lower_byte _) _); try reflexivity).
  - destruct (equal_fold code "OK") eqn:Hfold.
    + apply equal_fold_OK_ascii in Hfold. congruence.
    + apply String.eqb_neq. by apply Hup.
Qed.

(** ** [fmt] and [time] *)

Lemma fmt_four_check :
  forallb (fun n => String.eqb (Fmt.fmt_integer true 4 (Z.of_nat n))
                               (four_digits (Z.of_nat n)))
          (seq 0 (Z.to_nat 10000)) = true.
Proof. vm_compute. reflexivity. Qed.

Lemma fmt_two_check :
  forallb (fun n => String.eqb (Fmt.fmt_integer true 2 (Z.of_nat n))
                               (two_digits (Z.of_nat n)))
          (seq 0 (Z.to_nat 100)) = true.
Proof. vm_compute. reflexivity. Qed.

(** [%04d] of a number of at most four digits is its four digits. *)
Lemma fmt_four (y : Z) :
  0 <= y <= 9999 -> Fmt.fmt_integer true 4 y = four_digits y.
Proof.
  intros Hy. pose proof fmt_four_check as H.
  rewrite forallb_forall in H. specialize (H (Z.to_nat y)).
  rewrite Z2Nat.id in H by lia. apply String.eqb_eq, H, in_seq. lia.
Qed.

(** [%02d] of a number of at most two digits is its two digits. *)
Lemma fmt_two (v : Z) :
  0 <= v <= 99 -> Fmt.fmt_integer true 2 v = two_digits v.
Proof.
  intros Hv. pose proof fmt_two_check as H.
  rewrite forallb_forall in H. specialize (H (Z.to_nat v)).
  rewrite Z2Nat.id in H by lia. apply String.eqb_eq, H, in_seq. lia.
Qed.

(** The format of the timestamp, directive by directive. *)
Lemma Sprintf_timestamp (y m d h mi s : Z) :
  Fmt.Sprintf "%04d-%02d-%02dT%02d:%02d:%02dZ"
    [Fmt.Int y; Fmt.Int m; Fmt.Int d; Fmt.Int h; Fmt.Int mi; Fmt.Int s]
  = Fmt.fmt_integer true 4 y +:+ "-" +:+ Fmt.fmt_integer true 2 m +:+ "-"
    +:+ Fmt.fmt_integer true 2 d +:+ "T" +:+ Fmt.fmt_integer true 2 h +:+ ":"
    +:+ Fmt.fmt_integer true 2 mi +:+ ":" +:+ Fmt.fmt_integer true 2 s +:+ "Z".
Proof. cbv -[Fmt.fmt_integer String.append]. reflexivity. Qed.

(** The calendar fields stay in their ranges, whatever the instant. *)
Lemma civil_bounds (day : Z) :
  1 <= (Time.civil day).1.2 <= 12 /\ 1 <= (Time.civil day).2 <= 31.
Proof.
  unfold Time.civil. cbn [fst snd].
  set (doe := (day + 719468) mod 146097).
  assert (Hdoe : 0 <= doe < 146097) by (apply Z.mod_pos_bound; lia).
  clearbody doe.
  set (yoe := (doe - doe / 1460 + doe / 36524 - doe / 146096) / 365).
  set (doy := doe - (365 * yoe + yoe / 4 - yoe / 100)).
  assert (Hdoy : 0 <= doy <= 365)
    by (unfold doy, yoe; Z.div_mod_to_equations; lia).
  clearbody doy.
  set (mp := (5 * doy + 2) / 153).
  assert (Hmp : 0 <= mp <= 11) by (unfold mp; Z.div_mod_to_equations; lia).
  assert (Hd : 1 <= doy - (153 * mp + 2) / 5 + 1 <= 31)
    by (unfold mp; Z.div_mod_to_equations; lia).
  split; [|exact Hd]. destruct (mp <? 10) eqn:E; lia.
Qed.

Lemma Time_bounds (t : Time.t) :
  1 <= Time.Month t <= 12 /\ 1 <= Time.Day t <= 31 /\ 0 <= Time.Hour t <= 23
  /\ 0 <= Time.Minute t <= 59 /\ 0 <= Time.Second t <= 59.
Proof.
  destruct (civil_bounds (Time.wall t / 86400)) as [Hm Hd].
  unfold Time.Month, Time.Day, Time.Hour, Time.Minute, Time.Second.
  repeat split; try (apply Hm || apply Hd);
    Z.div_mod_to_equations; lia.
Qed.

(** For a year of at most four digits the timestamp has the fixed
    layout. *)
Lemma GenTimestamp_layout (t : Time.t) :
  0 <= Time.Year (Time.UTC t) <= 9999 ->
  Message.GenTimestamp t = timestamp_layout t.
Proof.
  intros Hy. unfold Message.GenTimestamp, timestamp_layout. cbv zeta.
  destruct (Time_bounds (Time.UTC t)) as (Hm & Hd & Hh & Hmi & Hs).
  rewrite Sprintf_timestamp.
  rewrite fmt_four by done. rewrite !fmt_two by lia. reflexivity.
Qed.

(** ** [Send]: overrides that write any key *)

Lemma writes_lookup (ws : list (string * string)) (c : Client) (K : string) :
  Params (foldl (fun c param => f param c) c
            ((fun kv : string * string => write kv.1 kv.2) <$> ws)) !! K
  = match last_write K ws with
    | Some ov => Some ov
    | None => Params c !! K
    end.
Proof.
  unfold last_write. induction ws as [|[k v] ws IH] using rev_ind; [done|].
  rewrite fmap_app, foldl_app, omap_app.
  cbn [fmap list_fmap omap list_omap foldl write f set_Params Params fst snd].
  destruct (String.eqb_spec k K) as [->|Hne].
  - by rewrite last_snoc, lookup_insert_eq.
  - rewrite List.app_nil_r, lookup_insert_ne by done. apply IH.
Qed.

(** The required fields are written last: they hold the arguments of the
    call whatever the overrides, arbitrary closures included, have done. *)
Lemma Send_params_required (w : World) (c : Client) (phoneNumbers : list string)
    (signName templateCode templateParam : string) (params : list Param)
    (K R : string) :
  required_field phoneNumbers signName templateCode templateParam K = Some R ->
  Params (Send_params w c phoneNumbers signName templateCode templateParam
            params) !! K = Some R.
Proof.
  unfold Send_params, required_field.
  destruct (uuid_New w) as [UUID e].
  rewrite SetPhoneNumbers_Join. cbn [set_Params Params accessKeySecret].
  destruct (String.eqb_spec K "PhoneNumbers") as [->|H1].
  { intros [= <-]. by rewrite !lookup_insert_ne, lookup_insert_eq by done. }
  destruct (String.eqb_spec K "SignName") as [->|H2].
  { intros [= <-]. by rewrite !lookup_insert_ne, lookup_insert_eq by done. }
  destruct (String.eqb_spec K "TemplateCode") as [->|H3].
  { intros [= <-]. by rewrite !lookup_insert_ne, lookup_insert_eq by done. }
  destruct (String.eqb_spec K "TemplateParam") as [->|H4]; [|done].
  intros [= <-]. by rewrite lookup_insert_eq.
Qed.

(** The precedence, for overrides that may write any key. *)
Lemma Send_params_lookup_writes (w : World) (c : Client)
    (phoneNumbers : list string) (signName templateCode templateParam : string)
    (ws : list (string * string)) (K : string) :
  Params (Send_params w c phoneNumbers signName templateCode templateParam
            ((fun kv : string * string => write kv.1 kv.2) <$> ws)) !! K
  = match required_field phoneNumbers signName templateCode templateParam K with
    | Some R => Some R
    | None =>
        match last_write K ws with
        | Some ov => Some ov
        | None =>
            match default_field w K with
            | Some D => Some D
            | None => Params c !! K
            end
        end
    end.
Proof.
  unfold Send_params, required_field, default_field.
  destruct (uuid_New w) as [UUID e]. cbn [fst].
  rewrite SetPhoneNumbers_Join, SetTimestamp_GenTimestamp.
  cbn [set_Params Params accessKeySecret].
  key_case K "TemplateParam". key_case K "TemplateCode".
  key_case K "SignName". key_case K "PhoneNumbers".
  rewrite writes_lookup. cbn [String.eqb Ascii.eqb].
  destruct (last_write K ws) as [ov|]; [by repeat case_match|].
  cbn [set_Params Params].
  key_case K "RegionId". key_case K "Version". key_case K "Action".
  key_case K "SignatureNonce". key_case K "SignatureVersion".
  key_case K "SignatureMethod". key_case K "Format". key_case K "Timestamp".
  done.
Qed.

(** ** [Send]: what reaches the transport *)

Lemma Send_request_NewRequest_fails (w : World) (u : URL.URL) (err : error) :
  http_NewRequest w "GET" (URL.String_ u) = Err err ->
  Send_request w u = (false, None, Some err).
Proof. intros H. unfold Send_request. by rewrite H. Qed.

Lemma Send_request_Do_fails (w : World) (u : URL.URL) (req : Request)
    (err : error) :
  http_NewRequest w "GET" (URL.String_ u) = Ok req ->
  client_Do w req = Err err ->
  Send_request w u = (false, None, Some err).
Proof. intros H1 H2. unfold Send_request. by rewrite H1, H2. Qed.

(** * Properties of the specification *)

(** C1. For every parameter map and secret, the signature of the newer
    revision is computed by the pipeline: the string to sign is ["GET"],
    ["&"], ["%2F"], ["&"] and the canonical query string passed once more
    through the corrected escaper as one value; HMAC-SHA1 (RFC 2104) is
    computed over its bytes with the key [secret & "&"]; the digest is
    base64-encoded; the corrected escaper is applied to the base64 text. *)
Theorem Client_SignedString_pipeline (c : Client) :
  let canonical := SortedQueryStr c in
  let string_to_sign :=
    "GET" +:+ "&" +:+ "%2F" +:+ "&" +:+ SpecialURLEncode canonical in
  let digest := hmac_rfc2104 (bytes_of_string (accessKeySecret c +:+ "&"))
                             (bytes_of_string string_to_sign) in
  Client.SignedString c = SpecialURLEncode (Base64.EncodeToString digest).
Proof.
  cbv zeta. unfold Client.SignedString. cbv zeta.
  rewrite hmac_sha1_rfc2104, QueryEscape_slash. reflexivity.
Qed.

(** C2, as stated, fails: with the keys ["a"] and ["{"] the pairs come out as
    [a=1&%7B=2], and the encoded keys ["a"], ["%7B"] are not ascending. *)
Lemma encoded_keys_not_ascending :
  ~ StronglySorted str_lt (pairs_of (SortedQueryStr brace_client)).*1.
Proof.
  vm_compute. intros H. inversion H as [|? ? ? Hall].
  inversion Hall as [|? ? Hlt]. discriminate Hlt.
Qed.

(** C2, amended. For every parameter map, the pairs of the canonical query
    string are the entries of the map in strictly ascending byte-wise order
    of their raw keys, each key and value escaped after the sort; the order
    in which the map is visited plays no role. *)
Theorem SortedQueryStr_sorted_by_raw_key (c : Client) :
  exists entries : list (string * string),
    entries ≡ₚ map_to_list (Params c)
    /\ StronglySorted str_lt entries.*1
    /\ pairs_of (SortedQueryStr c)
       = (fun kv => (URL.QueryEscape kv.1, URL.QueryEscape kv.2)) <$> entries
    /\ forall order, order ≡ₚ map_to_list (Params c) ->
         SortedQueryStr_range order = SortedQueryStr c.
Proof.
  exists (sorted_entries (Params c)). split; [apply sorted_entries_perm|].
  split; [rewrite sorted_entries_keys; apply sorted_keys_strict|].
  split; [apply pairs_of_SortedQueryStr|]. apply SortedQueryStr_range_order.
Qed.

(** C3 fails on the code.  At the map with the single entry [a] = ["b c"]
    the canonical query string is [a=b+c]: the value is escaped by
    [values.Encode], not by [SpecialURLEncode], which gives [b%20c]; ["b+c"] is
    the corrected escape of no string.  The string that is signed then holds
    [%2B] where the pipeline over corrected escapes holds [%2520], and the
    signature differs from the signature of that pipeline. *)
Theorem space_value_escaped_as_plus :
  SortedQueryStr space_client = "a=b+c"
  /\ pairs_of (SortedQueryStr space_client) = [("a", "b+c")]
  /\ SpecialURLEncode "b c" = "b%20c"
  /\ ~ (forall p, p ∈ pairs_of (SortedQueryStr space_client) ->
          exists k v, p = (SpecialURLEncode k, SpecialURLEncode v))
  /\ SpecialURLEncode (SortedQueryStr space_client) = "a%3Db%2Bc"
  /\ SpecialURLEncode ("a" +:+ "=" +:+ SpecialURLEncode "b c") = "a%3Db%2520c"
  /\ Client.SignedString space_client = "mvFfyDuKuDu%2B0K%2FuzhSepDCeSAk%3D"
  /\ SpecialURLEncode
       (Base64.EncodeToString
          (hmac_sha1 (accessKeySecret space_client +:+ "&")
             ("GET&%2F&"
              +:+ SpecialURLEncode ("a" +:+ "=" +:+ SpecialURLEncode "b c"))))
     = "qvsY3Ark%2FiJI%2FmpYntG1Xs%2FYrmc%3D".
Proof.
  repeat split; try (vm_compute; reflexivity).
  intros H. destruct (H ("a", "b+c")) as (k & v & Heq).
  { vm_compute. apply list_elem_of_here. }
  injection Heq as _ Hv.
  destruct (SpecialURLEncode_clean v) as (Hplus & _).
  rewrite <- Hv in Hplus. discriminate Hplus.
Qed.

(** Every key and every value of the canonical query string is the generic
    escape [url.QueryEscape] of the raw key or value: it has a ['+'] exactly
    where the raw string has a space, and the corrected escape differs from
    it only by turning those ['+'] into [%20]. *)
Lemma SortedQueryStr_generic_escape (c : Client) (s : string) :
  pairs_of (SortedQueryStr c)
  = (fun kv => (URL.QueryEscape kv.1, URL.QueryEscape kv.2))
      <$> sorted_entries (Params c)
  /\ has_byte "+" (URL.QueryEscape s) = has_byte " " s
  /\ SpecialURLEncode s = GoStrings.Replace (URL.QueryEscape s) "+" "%20" (-1).
Proof.
  split; [apply pairs_of_SortedQueryStr|]. split; [apply QueryEscape_plus|].
  rewrite SpecialURLEncode_special. symmetry. apply replace_plus_QueryEscape.
Qed.

(** C4, as stated, fails: [Params] is an exported field, and after
    [c.Params["Signature"] = "x"] the map that [Send] signs still holds that
    entry, so that the pair [Signature=x] is part of the canonical query
    string that is signed. *)
Lemma Signature_entry_is_signed :
  let signed := (Client_Send (answering "OK") signature_client
                   ["13800138000"] "test" "SMS_1" "{}" []).1 in
  Params signed !! "Signature" = Some "x"
  /\ ("Signature", "x") ∈ pairs_of (SortedQueryStr signed)
  /\ ~ ("Signature" ∉ (pairs_of (SortedQueryStr signed)).*1).
Proof.
  cbv zeta. split; [vm_compute; reflexivity|].
  assert (Hin : ("Signature", "x")
                ∈ pairs_of (SortedQueryStr
                     (Client_Send (answering "OK") signature_client
                        ["13800138000"] "test" "SMS_1" "{}" []).1)).
  { vm_compute.
    repeat first [apply list_elem_of_here | apply list_elem_of_further]. }
  split; [exact Hin|]. intros Hnot. apply Hnot.
  apply list_elem_of_fmap. by exists ("Signature", "x").
Qed.

(** C4, amended. For every call of [Send] on a client whose map holds no
    ["Signature"] entry when the call starts, the map that is signed holds no
    ["Signature"] entry, no pair of the canonical query string has the key
    ["Signature"], and the query string that is transmitted is
    ["Signature="], the signature, ["&"] and that same canonical query
    string: the request is built for the method [GET] and the URL
    [http://dysmsapi.aliyuncs.com/?] followed by that query string, a failure
    to build it is the error of the call, and the request so built is the one
    handed to the transport. *)
Theorem Send_signature_excluded (SignedString : Client -> string) (w : World)
    (c : Client) (phoneNumbers : list string)
    (signName templateCode templateParam : string) (ps : list ParamCall) :
  Params c !! "Signature" = None ->
  let sent := Send_with SignedString w c phoneNumbers signName templateCode
                templateParam (call <$> ps) in
  let signed := sent.1 in
  let rawQuery := "Signature=" +:+ SignedString signed +:+ "&"
                  +:+ SortedQueryStr signed in
  let url := "http://dysmsapi.aliyuncs.com/?" +:+ rawQuery in
  Params signed !! "Signature" = None
  /\ ("Signature" ∉ (pairs_of (SortedQueryStr signed)).*1)
  /\ Send_rawQuery SignedString signed = rawQuery
  /\ URL.String_ (Send_url (Send_rawQuery SignedString signed)) = url
  /\ sent.2 = Send_request w (Send_url (Send_rawQuery SignedString signed))
  /\ (forall err, http_NewRequest w "GET" url = Err err ->
        sent.2 = (false, None, Some err))
  /\ (forall req err, http_NewRequest w "GET" url = Ok req ->
        client_Do w req = Err err -> sent.2 = (false, None, Some err)).
Proof.
  intros Hc. cbv zeta. unfold Send_with. cbv zeta. cbn [fst snd].
  set (signed := Send_params _ _ _ _ _ _ _).
  assert (Hs : Params signed !! "Signature" = None)
    by by apply Send_params_no_Signature.
  assert (Hurl : URL.String_ (Send_url (Send_rawQuery SignedString signed))
                 = "http://dysmsapi.aliyuncs.com/?" +:+ "Signature="
                   +:+ SignedString signed +:+ "&" +:+ SortedQueryStr signed).
  { rewrite Send_url_String; [by rewrite Send_rawQuery_eq|].
    rewrite Send_rawQuery_eq, !slength_app. cbn [String.length]. lia. }
  split; [exact Hs|]. split.
  { change "Signature" with (URL.QueryEscape "Signature").
    rewrite encoded_key_in, Hs. by intros [? ?]. }
  split; [apply Send_rawQuery_eq|]. split; [exact Hurl|].
  split; [reflexivity|]. split.
  - intros err Herr. apply Send_request_NewRequest_fails. by rewrite Hurl.
  - intros req err Hreq Hdo. apply (Send_request_Do_fails _ _ req); [|done].
    by rewrite Hurl.
Qed.

Lemma Send_signature_excluded_witness :
  Params (NewClient "id1" "testsecret") !! "Signature" = None
  /\ Params (Client_Send (answering "OK") (NewClient "id1" "testsecret")
               ["13800138000"] "test" "SMS_1" "{}"
               (call <$> [CallOutID "x"])).1 !! "Signature" = None.
Proof.
  split; [reflexivity|].
  apply (Send_signature_excluded Client.SignedString (answering "OK")
           (NewClient "id1" "testsecret") ["13800138000"] "test" "SMS_1" "{}"
           [CallOutID "x"]).
  reflexivity.
Defined.

(** C5. For every call of [Send] and every key [K]: if [K] is one of the
    required business fields, the map holds the argument of the call under
    [K] when the signature is computed, whatever the caller's [Param]s,
    arbitrary closures included, have written; and for overrides that each
    write one key, which may be a required one, the value under [K] is the
    required field if [K] is required, else the last override for [K] in
    the order given, else the default seeded under [K], else what the client
    held before the call.  The same holds for the exported overrides. *)
Theorem Send_override_ordering (w : World) (c : Client)
    (phoneNumbers : list string) (signName templateCode templateParam : string)
    (params : list Param) (ws : list (string * string)) (ps : list ParamCall)
    (K : string) :
  match required_field phoneNumbers signName templateCode templateParam K with
  | Some R =>
      Params (Send_params w c phoneNumbers signName templateCode templateParam
                params) !! K = Some R
  | None => True
  end
  /\ Params (Send_params w c phoneNumbers signName templateCode templateParam
               ((fun kv : string * string => write kv.1 kv.2) <$> ws)) !! K
     = match required_field phoneNumbers signName templateCode templateParam K
       with
       | Some R => Some R
       | None =>
           match last_write K ws with
           | Some ov => Some ov
           | None =>
               match default_field w K with
               | Some D => Some D
               | None => Params c !! K
               end
           end
       end
  /\ Params (Send_params w c phoneNumbers signName templateCode templateParam
               (call <$> ps)) !! K
     = match required_field phoneNumbers signName templateCode templateParam K
       with
       | Some R => Some R
       | None =>
           match last_override K ps with
           | Some ov => Some ov
           | None =>
               match default_field w K with
               | Some D => Some D
               | None => Params c !! K
               end
           end
       end.
Proof.
  split; [|split; [apply Send_params_lookup_writes|apply Send_params_lookup]].
  destruct (required_field _ _ _ _ K) as [R|] eqn:HR; [|done].
  by apply Send_params_required.
Qed.

(** An override of a required field loses: [SignName] is the argument of
    the call, not the value written by the override. *)
Example Send_override_of_SignName :
  Params (Send_params (answering "OK") (NewClient "id1" "testsecret")
            ["13800138000"] "good" "SMS_1" "{}" [write "SignName" "evil"])
    !! "SignName" = Some "good".
Proof. vm_compute. reflexivity. Qed.

(** C6. For every input string, the output of [SpecialURLEncode] contains no
    ['+'], no ['*'] and no occurrence of the sequence [%7E]. *)
Theorem SpecialURLEncode_correction_law (str : string) :
  GoStrings.Contains (SpecialURLEncode str) "+" = false
  /\ GoStrings.Contains (SpecialURLEncode str) "*" = false
  /\ GoStrings.Contains (SpecialURLEncode str) "%7E" = false.
Proof. apply SpecialURLEncode_clean. Qed.

(** C7, as stated, fails: on the scenario of the specification the older
    revision returns [%252BfpFSNEkjoN18HRmOswTkjwwZVY%253D] and the newer
    one [%2BfpFSNEkjoN18HRmOswTkjwwZVY%3D]. *)
Lemma SignedString_variants_disagree :
  SMS.SignedString golden <> Client.SignedString golden.
Proof. vm_compute. discriminate. Qed.

(** C7, amended. For every parameter map and secret, the [SignedString] with
    the extra pass returns the generic escape of what the [SignedString]
    without it returns, so that every ['%'] of the latter is [%25] in the
    former; since the base64 text of a digest of twenty bytes ends in ['='],
    the two never return the same string. *)
Theorem SignedString_extra_pass (c : Client) :
  SMS.SignedString c = URL.QueryEscape (Client.SignedString c)
  /\ SMS.SignedString c <> Client.SignedString c.
Proof. split; [apply SMS_SignedString_QueryEscape|apply SignedString_differ]. Qed.

(** C8. For every call of [Send] in which request construction, the
    transport, the body read and the decode succeed, the call returns the
    decoded [Response] with no error, and a success flag that is true
    exactly when the decoded [Code] equals ["OK"] up to the case of its
    letters. *)
Theorem Send_success_classification (SignedString : Client -> string)
    (w : World) (c : Client) (phoneNumbers : list string)
    (signName templateCode templateParam : string) (params : list Param)
    (req : Request) (resp : HTTPResponse) (buf : string) (r : Response) :
  let signed := Send_params w c phoneNumbers signName templateCode
                  templateParam params in
  let u := Send_url (Send_rawQuery SignedString signed) in
  unicode_upper_ok (unicode_upper w) ->
  http_NewRequest w "GET" (URL.String_ u) = Ok req ->
  client_Do w req = Ok resp ->
  ioutil_ReadAll (Body resp) = Ok buf ->
  json_Unmarshal w buf empty_Response = Ok r ->
  (Send_with SignedString w c phoneNumbers signName templateCode
     templateParam params).2
  = (equal_fold (Code r) "OK", Some r, None).
Proof.
  cbv zeta. intros Hup Hreq Hdo Hread Hjson.
  unfold Send_with. cbv zeta. cbn [snd]. unfold Send_request.
  rewrite Hreq, Hdo, Hread. fold empty_Response. rewrite Hjson.
  rewrite (ToUpper_OK _ _ Hup). by destruct (equal_fold (Code r) "OK").
Qed.

Lemma identity_upper_ok : unicode_upper_ok (fun s => s).
Proof. intros s Hs ->. discriminate Hs. Qed.

Lemma Send_success_classification_witness :
  (Client_Send (answering "ok") (NewClient "id1" "testsecret")
     ["13800138000"] "test" "SMS_1" "{}" []).2
  = (true,
     Some {| RequestID := "8906582E-6722"; Code := "ok"; Message := "ok";
             BizID := "" |},
     None).
Proof.
  apply (Send_success_classification Client.SignedString (answering "ok")
           (NewClient "id1" "testsecret") ["13800138000"] "test" "SMS_1" "{}" []
           _ _ _ _ identity_upper_ok eq_refl eq_refl eq_refl eq_refl).
Defined.

(** C9. For every call of [Send] in which request construction, the
    transport, the body read or the decode fails, the call returns the error
    of the failing step, with a false success flag and no [Response]. *)
Theorem Send_failure (SignedString : Client -> string)
    (w : World) (c : Client) (phoneNumbers : list string)
    (signName templateCode templateParam : string) (params : list Param)
    (err : error) :
  let signed := Send_params w c phoneNumbers signName templateCode
                  templateParam params in
  let u := Send_url (Send_rawQuery SignedString signed) in
  (http_NewRequest w "GET" (URL.String_ u) = Err err
   \/ exists req, http_NewRequest w "GET" (URL.String_ u) = Ok req
      /\ (client_Do w req = Err err
          \/ exists resp, client_Do w req = Ok resp
             /\ (ioutil_ReadAll (Body resp) = Err err
                 \/ exists buf, ioutil_ReadAll (Body resp) = Ok buf
                    /\ json_Unmarshal w buf empty_Response = Err err))) ->
  (Send_with SignedString w c phoneNumbers signName templateCode
     templateParam params).2
  = (false, None, Some err).
Proof.
  cbv zeta. unfold Send_with. cbv zeta. cbn [snd]. unfold Send_request.
  fold empty_Response.
  intros [Hreq|(req & Hreq & [Hdo|(resp & Hdo & [Hread|(buf & Hread & Hjson)])])];
    rewrite Hreq; try rewrite Hdo; try rewrite Hread; try rewrite Hjson;
    reflexivity.
Qed.

Lemma Send_failure_witness :
  (Client_Send unreachable (NewClient "id1" "testsecret")
     ["13800138000"] "test" "SMS_1" "{}" []).2
  = (false, None, Some "dial tcp: no route to host").
Proof.
  apply (Send_failure Client.SignedString unreachable
           (NewClient "id1" "testsecret") ["13800138000"] "test" "SMS_1" "{}" []).
  right. eexists. split; [reflexivity|]. left. reflexivity.
Defined.

(** C10, as stated, fails: the first second of the year 10000 is formatted
    with a year of five digits, in twenty-one bytes. *)
Lemma year_10000_five_digits :
  Message.GenTimestamp year_10000 = "10000-01-01T00:00:00Z"
  /\ Message.GenTimestamp year_10000 <> timestamp_layout year_10000.
Proof. split; [vm_compute; reflexivity|vm_compute; discriminate]. Qed.

(** C10, amended. For every time [t] whose year in UTC lies between 0 and
    9999, the timestamp, generated by [GenTimestamp] or stored by
    [SetTimestamp], is [t] in UTC laid out as [YYYY-MM-DDThh:mm:ssZ]: four
    digits of year, two each of month, day, hour, minute and second, all
    zero-padded, no fraction, and the letter [Z]; twenty bytes in all. *)
Theorem GenTimestamp_format (c : Client) (t : Time.t) :
  0 <= Time.Year (Time.UTC t) <= 9999 ->
  Message.GenTimestamp t = timestamp_layout t
  /\ Params (SetTimestamp c t) !! "Timestamp" = Some (timestamp_layout t)
  /\ String.length (Message.GenTimestamp t) = 20%nat.
Proof.
  intros Hy. rewrite SetTimestamp_GenTimestamp, (GenTimestamp_layout t Hy).
  split; [reflexivity|]. split; [apply lookup_insert_eq|reflexivity].
Qed.

Lemma GenTimestamp_format_witness :
  0 <= Time.Year (Time.UTC new_year_2017) <= 9999
  /\ Message.GenTimestamp new_year_2017 = "2017-01-01T00:00:00Z".
Proof.
  assert (Hy : 0 <= Time.Year (Time.UTC new_year_2017) <= 9999)
    by (vm_compute; split; discriminate).
  split; [exact Hy|].
  destruct (GenTimestamp_format golden new_year_2017 Hy) as (-> & _).
  reflexivity.
Defined.

(** * Further properties of the code *)

(** ** Phone numbers *)

Lemma GenPhoneNumbersStr_loop_eq (l i : Z) (nums : list string) (str : string) :
  Message.GenPhoneNumbersStr_loop l i nums str = SetPhoneNumbers_loop l i nums str.
Proof.
  revert i str. induction nums as [|num rest IH]; intros i str; [done|].
  cbn [Message.GenPhoneNumbersStr_loop SetPhoneNumbers_loop]. apply IH.
Qed.

Lemma GenPhoneNumbersStr_Join (nums : list string) :
  Message.GenPhoneNumbersStr nums = Join nums ",".
Proof.
  unfold Message.GenPhoneNumbersStr. rewrite GenPhoneNumbersStr_loop_eq.
  pose proof (PhoneNumbers_loop_Join nums 0 "") as HJ.
  by rewrite Z.add_0_l, sapp_nil_l in HJ.
Qed.

Lemma split_Join (nums : list string) :
  nums <> [] -> Forall (fun n => has_byte "," n = false) nums ->
  split "," (Join nums ",") = nums.
Proof.
  intros Hne Hall. induction Hall as [|n rest Hn Hrest IH]; [done|].
  destruct rest as [|n' rest].
  - cbn [Join]. by apply split_no_sep.
  - change (Join (n :: n' :: rest) ",")
      with (n +:+ String "," (Join (n' :: rest) ",")).
    rewrite split_app by done. by rewrite IH.
Qed.

(** X1. [GenPhoneNumbersStr] and [SetPhoneNumbers] produce the numbers
    separated by single commas, with no comma before the first or after the
    last; no number gives the empty string and one number gives itself. *)
Theorem PhoneNumbers_joined (c : Client) (nums : list string) (num : string) :
  Message.GenPhoneNumbersStr nums = Join nums ","
  /\ Params (SetPhoneNumbers c nums) !! "PhoneNumbers" = Some (Join nums ",")
  /\ Message.GenPhoneNumbersStr [] = ""
  /\ Message.GenPhoneNumbersStr [num] = num.
Proof.
  split; [apply GenPhoneNumbersStr_Join|]. split.
  - rewrite SetPhoneNumbers_Join. apply lookup_insert_eq.
  - by rewrite !GenPhoneNumbersStr_Join.
Qed.

(** X2. When there is at least one number and no number contains a comma,
    splitting the generated string at the commas gives the numbers back. *)
Theorem PhoneNumbers_round_trip (nums : list string) :
  nums <> [] -> Forall (fun n => has_byte "," n = false) nums ->
  split "," (Message.GenPhoneNumbersStr nums) = nums.
Proof.
  intros Hne Hall. rewrite GenPhoneNumbersStr_Join. by apply split_Join.
Qed.

Lemma PhoneNumbers_round_trip_witness :
  split "," (Message.GenPhoneNumbersStr ["13800138000"; "13900139000"])
  = ["13800138000"; "13900139000"].
Proof.
  apply (PhoneNumbers_round_trip ["13800138000"; "13900139000"]);
    [discriminate|repeat constructor].
Defined.

(** ** The corrected escaper *)

Lemma special_app (s t : string) : special (s +:+ t) = special s +:+ special t.
Proof.
  induction s as [|c s IH]; [reflexivity|].
  rewrite sapp_cons. cbn [special]. by rewrite IH, sapp_assoc.
Qed.

(** X3. [SpecialURLEncode] works byte by byte: the escape of a concatenation
    is the concatenation of the escapes, and the empty string is escaped to
    itself. *)
Theorem SpecialURLEncode_app (s t : string) :
  SpecialURLEncode (s +:+ t) = SpecialURLEncode s +:+ SpecialURLEncode t
  /\ SpecialURLEncode "" = "".
Proof.
  rewrite !SpecialURLEncode_special. split; [apply special_app|reflexivity].
Qed.

Lemma QueryUnescape_special_byte (c : ascii) (rest : string) :
  QueryUnescape (special_byte c +:+ rest) = String c (QueryUnescape rest).
Proof. each_byte c; reflexivity. Qed.

Lemma QueryUnescape_special (s : string) : QueryUnescape (special s) = s.
Proof.
  induction s as [|c s IH]; [reflexivity|].
  cbn [special]. by rewrite QueryUnescape_special_byte, IH.
Qed.

(** X4. [SpecialURLEncode] loses nothing: unescaping its output ([%XY] to
    the byte, ['+'] to a space) gives the input back, so that two different
    strings never have the same escape. *)
Theorem SpecialURLEncode_round_trip (s t : string) :
  QueryUnescape (SpecialURLEncode s) = s
  /\ (SpecialURLEncode s = SpecialURLEncode t -> s = t).
Proof.
  rewrite !SpecialURLEncode_special. split; [apply QueryUnescape_special|].
  intros H. by rewrite <- (QueryUnescape_special s), H, QueryUnescape_special.
Qed.

Lemma special_byte_safe (c : ascii) (rest : string) :
  all_bytes url_safe (special_byte c +:+ rest) = all_bytes url_safe rest.
Proof. each_byte c; reflexivity. Qed.

Lemma special_byte_length (c : ascii) :
  (1 <= String.length (special_byte c) <= 3)%nat.
Proof. each_byte c; cbv; lia. Qed.

(** X5. The output of [SpecialURLEncode] consists of unreserved bytes
    (letters, digits, [-], [_], [.], [~]) and ['%'] only, and is between one
    and three times as long as the input. *)
Theorem SpecialURLEncode_alphabet (s : string) :
  all_bytes url_safe (SpecialURLEncode s) = true
  /\ (String.length s <= String.length (SpecialURLEncode s)
      <= 3 * String.length s)%nat.
Proof.
  rewrite SpecialURLEncode_special.
  induction s as [|c s (IHa & IHl)]; [split; [reflexivity|simpl; lia]|].
  cbn [special]. rewrite special_byte_safe, slength_app.
  pose proof (special_byte_length c). split; [exact IHa|]. simpl. lia.
Qed.

(** ** The canonical query string *)

Lemma sorted_keys_nil (m : gmap string string) : sorted_keys m = [] <-> m = ∅.
Proof.
  split.
  - intros H. pose proof (sorted_keys_perm m) as Hp. rewrite H in Hp.
    symmetry in Hp. apply Permutation_nil_r in Hp.
    apply fmap_nil_inv in Hp. by apply map_to_list_empty_iff.
  - intros ->. unfold sorted_keys. by rewrite map_to_list_empty.
Qed.

(** X6. The canonical query string is empty exactly for the empty map, and
    it has as many pairs as the map has entries. *)
Theorem SortedQueryStr_empty (c : Client) :
  (SortedQueryStr c = "" <-> Params c = ∅)
  /\ length (pairs_of (SortedQueryStr c)) = size (Params c).
Proof.
  split.
  - rewrite SortedQueryStr_pairs, <- sorted_keys_nil.
    destruct (sorted_keys (Params c)) as [|k ks]; [done|].
    split; [|done]. intros H.
    pose proof (pair_str_length (Params c) k) as Hl.
    apply (f_equal String.length) in H. rewrite slength_app in H.
    simpl in H. lia.
  - rewrite pairs_of_SortedQueryStr, length_fmap, sorted_entries_perm.
    apply length_map_to_list.
Qed.

Lemma escape_pair_inj (l1 l2 : list (string * string)) :
  (fun kv : string * string => (URL.QueryEscape kv.1, URL.QueryEscape kv.2)) <$> l1
  = (fun kv => (URL.QueryEscape kv.1, URL.QueryEscape kv.2)) <$> l2 ->
  l1 = l2.
Proof.
  revert l2. induction l1 as [|[k1 v1] l1 IH]; intros [|[k2 v2] l2] H;
    try done.
  injection H as Hk Hv Hl. apply QueryEscape_inj in Hk, Hv.
  subst. f_equal. by apply IH.
Qed.

(** X7. The canonical query string determines the parameter map: two
    clients with the same [SortedQueryStr] hold the same parameters. *)
Theorem SortedQueryStr_inj (c1 c2 : Client) :
  SortedQueryStr c1 = SortedQueryStr c2 -> Params c1 = Params c2.
Proof.
  intros H. apply (f_equal pairs_of) in H.
  rewrite !pairs_of_SortedQueryStr in H. apply escape_pair_inj in H.
  apply map_to_list_inj. by rewrite <- !sorted_entries_perm, H.
Qed.

Lemma SortedQueryStr_inj_witness :
  Params golden = Params {| accessKeySecret := "other"; Params := Params golden |}.
Proof.
  apply (SortedQueryStr_inj golden
           {| accessKeySecret := "other"; Params := Params golden |}).
  reflexivity.
Defined.

(** ** The string to sign *)

Lemma special_byte_no_amp (c : ascii) (rest : string) :
  has_byte "&" (special_byte c +:+ rest) = has_byte "&" rest.
Proof. each_byte c; reflexivity. Qed.

Lemma special_no_amp (s : string) : has_byte "&" (special s) = false.
Proof.
  induction s as [|c s IH]; [reflexivity|].
  cbn [special]. by rewrite special_byte_no_amp.
Qed.

(** X8. The string both revisions sign has exactly three ['&']-separated
    parts, whatever the query string: the method, the escaped path and the
    escaped query, in which every ['&'] and ['='] of the canonical query
    string has become [%26] and [%3D]. *)
Theorem string_to_sign_parts (query : string) :
  split "&" ("GET&" +:+ URL.QueryEscape "/" +:+ "&" +:+ SpecialURLEncode query)
  = ["GET"; "%2F"; SpecialURLEncode query]
  /\ SpecialURLEncode "a=1&b=2" = "a%3D1%26b%3D2".
Proof.
  split; [|reflexivity].
  rewrite SpecialURLEncode_special, QueryEscape_slash.
  change ("GET&" +:+ "%2F" +:+ "&" +:+ special query)
    with ("GET" +:+ String "&" ("%2F" +:+ String "&" (special query))).
  rewrite !split_app by reflexivity.
  by rewrite split_no_sep by apply special_no_amp.
Qed.

(** The canonical query string has no space, so the second escape of the
    signing step is the generic one. *)
Lemma amp_pairs_no_space (m : gmap string string) (ks : list string) :
  has_byte " " (amp_pairs m ks) = false.
Proof.
  induction ks as [|k ks IH]; [reflexivity|].
  cbn [amp_pairs]. unfold pair_str.
  rewrite !has_byte_app, !QueryEscape_has, IH by auto. reflexivity.
Qed.

Lemma SortedQueryStr_no_space (c : Client) :
  has_byte " " (SortedQueryStr c) = false.
Proof.
  rewrite SortedQueryStr_pairs.
  destruct (sorted_keys (Params c)) as [|k ks]; [reflexivity|].
  unfold pair_str.
  rewrite !has_byte_app, !QueryEscape_has, amp_pairs_no_space by auto.
  reflexivity.
Qed.

(** X9. In the signing step the corrections never fire: the canonical query
    string contains no space, so its corrected escape is its generic
    escape, and a space of a raw value, which is ['+'] in the canonical
    query string, is [%2B] in the string that is signed. *)
Theorem signing_escape_generic (c : Client) :
  SpecialURLEncode (SortedQueryStr c) = URL.QueryEscape (SortedQueryStr c)
  /\ SpecialURLEncode (SortedQueryStr space_client) = "a%3Db%2Bc".
Proof.
  split; [|vm_compute; reflexivity].
  apply SpecialURLEncode_no_space, SortedQueryStr_no_space.
Qed.

(** ** The signature *)

Lemma Client_SignedString_no (b : ascii) (c : Client) :
  b = "&"%char \/ b = "="%char \/ b = " "%char \/ b = "*"%char ->
  has_byte b (Client.SignedString c) = false.
Proof. intros Hb. rewrite Client_SignedString_QueryEscape. by apply QueryEscape_has. Qed.

Lemma SMS_SignedString_no (b : ascii) (c : Client) :
  b = "&"%char \/ b = "="%char \/ b = " "%char \/ b = "*"%char ->
  has_byte b (SMS.SignedString c) = false.
Proof. intros Hb. rewrite SMS_SignedString_QueryEscape. by apply QueryEscape_has. Qed.

(** X10. Unescaping the signature of the newer revision once gives the
    base64 text of the digest; unescaping that of the older revision once
    gives the signature of the newer one, still escaped, which is never the
    base64 text. *)
Theorem SignedString_unescape (c : Client) :
  let digest := hmac_sha1 (accessKeySecret c +:+ "&")
                  ("GET&%2F&" +:+ SpecialURLEncode (SortedQueryStr c)) in
  QueryUnescape (Client.SignedString c) = Base64.EncodeToString digest
  /\ QueryUnescape (SMS.SignedString c) = Client.SignedString c
  /\ QueryUnescape (SMS.SignedString c) <> Base64.EncodeToString digest.
Proof.
  cbv zeta. rewrite SMS_SignedString_QueryEscape, Client_SignedString_QueryEscape.
  rewrite !QueryUnescape_QueryEscape. split; [done|]. split; [done|].
  intros H. apply (f_equal String.length) in H.
  pose proof (QueryEscape_grows "=" _ ltac:(auto)
                (digest_base64_padding (accessKeySecret c +:+ "&")
                   ("GET&%2F&" +:+ SpecialURLEncode (SortedQueryStr c)))).
  lia.
Qed.

(** ** [Send]: what the call writes and what it leaves *)

Lemma last_override_none (K : string) (ps : list ParamCall) :
  (forall p, String.eqb (override_key p) K = false) ->
  last_override K ps = None.
Proof.
  intros HK. unfold last_override.
  replace (omap _ ps) with (@nil string); [done|].
  induction ps as [|p ps IH]; [done|].
  cbn [omap list_omap]. by rewrite <- IH, HK.
Qed.

Lemma overrides_secret (ps : list ParamCall) (c : Client) :
  accessKeySecret (foldl (fun c param => f param c) c (call <$> ps))
  = accessKeySecret c.
Proof.
  induction ps as [|p ps IH] using rev_ind; [done|].
  rewrite fmap_app, foldl_app. cbn [fmap list_fmap foldl].
  by rewrite call_set.
Qed.

Lemma Send_params_secret (w : World) (c : Client) (phoneNumbers : list string)
    (signName templateCode templateParam : string) (ps : list ParamCall) :
  accessKeySecret (Send_params w c phoneNumbers signName templateCode
                     templateParam (call <$> ps))
  = accessKeySecret c.
Proof.
  unfold Send_params. destruct (uuid_New w) as [UUID e].
  rewrite SetPhoneNumbers_Join. cbn [set_Params accessKeySecret].
  by rewrite overrides_secret.
Qed.

Lemma Client_eq (a b : Client) :
  accessKeySecret a = accessKeySecret b -> Params a = Params b -> a = b.
Proof. destruct a, b. cbn. by intros -> ->. Qed.

(** X11. Whatever the client held and whatever overrides are passed, after
    the parameter steps of [Send] the map holds each of the twelve fields
    the call writes. *)
Theorem Send_writes_fields (w : World) (c : Client) (phoneNumbers : list string)
    (signName templateCode templateParam : string) (ps : list ParamCall) :
  Forall (fun K => is_Some (Params (Send_params w c phoneNumbers signName
                                      templateCode templateParam (call <$> ps))
                            !! K))
         written_keys.
Proof.
  unfold written_keys.
  repeat (apply Forall_cons; split;
          [rewrite Send_params_lookup;
           unfold required_field, default_field;
           cbn [String.eqb Ascii.eqb Bool.eqb];
           try destruct (last_override _ ps); eauto|]).
  apply Forall_nil_2.
Qed.

(** X12. No override reaches the output format, the access key id or the
    secret: after the parameter steps of [Send] the field [Format] is
    ["JSON"], and [AccessKeyId] and the secret are what the client held
    before the call. *)
Theorem Send_fixed_fields (w : World) (c : Client) (phoneNumbers : list string)
    (signName templateCode templateParam : string) (ps : list ParamCall) :
  let signed := Send_params w c phoneNumbers signName templateCode
                  templateParam (call <$> ps) in
  Params signed !! "Format" = Some "JSON"
  /\ Params signed !! "AccessKeyId" = Params c !! "AccessKeyId"
  /\ accessKeySecret signed = accessKeySecret c.
Proof.
  cbv zeta. rewrite !Send_params_lookup, Send_params_secret.
  rewrite !last_override_none by (by intros []). done.
Qed.

(** X13. The map is kept from one call to the next: an [OutId] given to one
    [Send] is still in the map that the next [Send] signs, unless that call
    gives another one. *)
Theorem Send_keeps_OutId (w1 w2 : World) (c : Client)
    (nums1 nums2 : list string) (sn1 tc1 tp1 sn2 tc2 tp2 : string)
    (ps1 ps2 : list ParamCall) :
  let first := Send_params w1 c nums1 sn1 tc1 tp1 (call <$> ps1) in
  let second := Send_params w2 first nums2 sn2 tc2 tp2 (call <$> ps2) in
  Params second !! "OutId"
  = match last_override "OutId" ps2 with
    | Some ID => Some ID
    | None =>
        match last_override "OutId" ps1 with
        | Some ID => Some ID
        | None => Params c !! "OutId"
        end
    end.
Proof. cbv zeta. by rewrite !Send_params_lookup. Qed.

(** X14. The parameter steps of [Send] are idempotent: with the same clock
    reading, nonce, arguments and overrides, running them a second time
    changes nothing. *)
Theorem Send_params_idempotent (w : World) (c : Client)
    (phoneNumbers : list string) (signName templateCode templateParam : string)
    (ps : list ParamCall) :
  let signed := Send_params w c phoneNumbers signName templateCode
                  templateParam (call <$> ps) in
  Send_params w signed phoneNumbers signName templateCode templateParam
    (call <$> ps)
  = signed.
Proof.
  cbv zeta. apply Client_eq; [by rewrite !Send_params_secret|].
  apply map_eq. intros K. rewrite (Send_params_lookup w (Send_params _ _ _ _ _ _ _)).
  rewrite (Send_params_lookup w c).
  by repeat case_match.
Qed.

(** ** [Send]: the request and its outcome *)

(** X15. Whatever the collaborators do, [Send] returns either an error with
    a false flag and no response, or a response with no error and the flag
    of the comparison of its upper-cased code with ["OK"]; never a response
    together with an error, and never success without a response. *)
Theorem Send_request_shape (w : World) (u : URL.URL) :
  (exists err, Send_request w u = (false, None, Some err))
  \/ (exists r, Send_request w u
                = (String.eqb (GoStrings.ToUpper (unicode_upper w) (Code r)) "OK",
                   Some r, None)).
Proof.
  unfold Send_request.
  destruct (http_NewRequest w "GET" (URL.String_ u)) as [req|e]; [|eauto].
  destruct (client_Do w req) as [resp|e]; [|eauto].
  destruct (ioutil_ReadAll (Body resp)) as [buf|e]; [|eauto].
  destruct (json_Unmarshal w buf _) as [r|e]; [|eauto].
  right. exists r. by destruct (String.eqb _ "OK").
Qed.

Lemma SortedQueryStr_nonempty (c : Client) (K : string) :
  is_Some (Params c !! K) -> (0 < String.length (SortedQueryStr c))%nat.
Proof.
  intros HK. rewrite SortedQueryStr_pairs.
  destruct (sorted_keys (Params c)) as [|k ks] eqn:Hks.
  - apply sorted_keys_nil in Hks. rewrite Hks, lookup_empty in HK.
    by destruct HK.
  - rewrite slength_app. pose proof (pair_str_length (Params c) k). lia.
Qed.

Lemma pairs_of_Signature (sign query : string) :
  has_byte "&" sign = false -> (0 < String.length query)%nat ->
  pairs_of ("Signature=" +:+ sign +:+ "&" +:+ query)
  = ("Signature", sign) :: pairs_of query.
Proof.
  intros Hs Hq. unfold pairs_of.
  rewrite (eqb_nonempty query Hq).
  rewrite eqb_nonempty by (rewrite slength_app; simpl; lia).
  change ("Signature=" +:+ sign +:+ "&" +:+ query)
    with (("Signature=" +:+ sign) +:+ String "&" query).
  rewrite split_app by (by rewrite has_byte_app, Hs).
  cbn [map]. by f_equal.
Qed.

Lemma Send_params_TemplateParam (w : World) (c : Client)
    (phoneNumbers : list string) (signName templateCode templateParam : string)
    (params : list Param) :
  Params (Send_params w c phoneNumbers signName templateCode templateParam
            params) !! "TemplateParam" = Some templateParam.
Proof.
  unfold Send_params. destruct (uuid_New w) as [UUID e].
  cbn [set_Params Params]. apply lookup_insert_eq.
Qed.

(** X16. The query string [Send] transmits reads back, pair by pair, as the
    pair [Signature] with the signature followed by the pairs of the
    canonical query string that was signed: the signature of either revision
    contains no ['&'] that could split it. *)
Theorem Send_rawQuery_pairs (w : World) (c : Client) (phoneNumbers : list string)
    (signName templateCode templateParam : string) (params : list Param) :
  let signed := Send_params w c phoneNumbers signName templateCode
                  templateParam params in
  pairs_of (Send_rawQuery Client.SignedString signed)
  = ("Signature", Client.SignedString signed) :: pairs_of (SortedQueryStr signed)
  /\ pairs_of (Send_rawQuery SMS.SignedString signed)
     = ("Signature", SMS.SignedString signed) :: pairs_of (SortedQueryStr signed).
Proof.
  cbv zeta. set (signed := Send_params _ _ _ _ _ _ _).
  assert (Hq : (0 < String.length (SortedQueryStr signed))%nat).
  { apply (SortedQueryStr_nonempty signed "TemplateParam").
    unfold signed. by rewrite Send_params_TemplateParam. }
  rewrite !Send_rawQuery_eq.
  split; apply pairs_of_Signature; try done.
  - apply Client_SignedString_no. auto.
  - apply SMS_SignedString_no. auto.
Qed.

(** X17. Every client obtained from [NewClient] through any number of [Send]
    of either revision holds an [AccessKeyId] entry and no [Signature]
    entry. *)
Theorem reachable_invariant (c : Client) :
  reachable c ->
  is_Some (Params c !! "AccessKeyId") /\ Params c !! "Signature" = None.
Proof.
  induction 1 as [id secret|sg w c nums sn tc tp ps _ [IHa IHs]].
  - split; [by exists id|done].
  - unfold Send_with. cbv zeta. cbn [fst]. rewrite !Send_params_lookup.
    rewrite !last_override_none by (by intros []). done.
Qed.

Lemma reachable_invariant_witness :
  is_Some (Params (Client_Send (answering "OK") (NewClient "id1" "testsecret")
                     ["13800138000"] "test" "SMS_1" "{}"
                     (call <$> [CallOutID "x"])).1 !! "AccessKeyId").
Proof.
  apply (reachable_invariant
           (Send_with Client.SignedString (answering "OK")
              (NewClient "id1" "testsecret") ["13800138000"] "test" "SMS_1"
              "{}" (call <$> [CallOutID "x"])).1).
  apply reachable_send, reachable_new.
Defined.

(** ** The timestamp, for any year *)

Lemma repeat_byte_length (c : ascii) (n : nat) :
  String.length (Fmt.repeat_byte c n) = n.
Proof. induction n as [|n IH]; [done|]. simpl. by rewrite IH. Qed.

Lemma fmt_integer_width (width : nat) (v : Z) :
  (width <= String.length (Fmt.fmt_integer true width v))%nat.
Proof.
  unfold Fmt.fmt_integer. destruct (v <? 0); cbn [String.length];
    rewrite slength_app, repeat_byte_length; lia.
Qed.

(** X18. For every time value within [2^62] seconds of the epoch, where the
    calendar arithmetic of Go does not wrap, and whatever its year, the
    timestamp is the year in at least four positions followed by exactly
    [-MM-DDThh:mm:ssZ] with two digits for each field; it is never shorter
    than twenty bytes. *)
Theorem GenTimestamp_any_year (t : Time.t) :
  Time.no_wrap (Time.UTC t) ->
  let gmt := Time.UTC t in
  Message.GenTimestamp t
  = Fmt.fmt_integer true 4 (Time.Year gmt) +:+ "-"
    +:+ two_digits (Time.Month gmt) +:+ "-" +:+ two_digits (Time.Day gmt)
    +:+ "T" +:+ two_digits (Time.Hour gmt) +:+ ":"
    +:+ two_digits (Time.Minute gmt) +:+ ":" +:+ two_digits (Time.Second gmt)
    +:+ "Z"
  /\ (20 <= String.length (Message.GenTimestamp t))%nat.
Proof.
  intros _. cbv zeta. unfold Message.GenTimestamp. cbv zeta.
  destruct (Time_bounds (Time.UTC t)) as (Hm & Hd & Hh & Hmi & Hs).
  rewrite Sprintf_timestamp, !fmt_two by lia. split; [reflexivity|].
  pose proof (fmt_integer_width 4 (Time.Year (Time.UTC t))).
  rewrite !slength_app. unfold two_digits. cbn [String.length]. lia.
Qed.

Lemma GenTimestamp_any_year_witness :
  Time.no_wrap (Time.UTC year_10000)
  /\ (20 <= String.length (Message.GenTimestamp year_10000))%nat.
Proof.
  assert (H : Time.no_wrap (Time.UTC year_10000))
    by (vm_compute; split; discriminate).
  split; [exact H|]. apply (GenTimestamp_any_year year_10000 H).
Defined.

(** ** Package [message] against package [sms] *)

Lemma SortedQueryStr_Encode (c : Client) :
  SortedQueryStr c = URL.Encode (values_of c).
Proof.
  unfold SortedQueryStr, SortedQueryStr_range, values_of.
  by rewrite (values_of_entries (Params c)).
Qed.

Lemma values_of_set (c : Client) (key value : string) :
  URL.Values_Set (values_of c) key value = values_of (set_Params c key value).
Proof. unfold URL.Values_Set, values_of. cbn [set_Params Params]. by rewrite fmap_insert. Qed.

(** X19. The options of package [message] write into a [url.Values] what
    the options of package [sms] write into the map of a client: encoding
    the values after a [message] option gives the canonical query string of
    the client after the corresponding [sms] option, and likewise for the
    phone numbers. *)
Theorem message_option_agrees (p : ParamCall) (mp : Message.Param)
    (c : Client) (nums : list string) :
  message_call p = Some mp ->
  URL.Encode (Message.f mp (values_of c)) = SortedQueryStr (f (call p) c)
  /\ URL.Encode (Message.f (Message.PhoneNumbers nums) (values_of c))
     = SortedQueryStr (SetPhoneNumbers c nums).
Proof.
  intros Hp. rewrite !SortedQueryStr_Encode. split.
  - rewrite call_set.
    destruct p; try discriminate Hp; injection Hp as <-;
      cbn [Message.f Message.Timestamp Message.SignatureMethod
           Message.SignatureVersion Message.SignatureNonce Message.Action
           Message.Version Message.RegionID override_key override_value];
      by rewrite values_of_set.
  - rewrite SetPhoneNumbers_Join, <- GenPhoneNumbersStr_Join.
    cbn [Message.f Message.PhoneNumbers]. by rewrite values_of_set.
Qed.

Lemma message_option_agrees_witness :
  URL.Encode (Message.f (Message.Action "SendSms") (values_of golden))
  = SortedQueryStr (f (call (CallAction "SendSms")) golden).
Proof.
  apply (message_option_agrees (CallAction "SendSms")
           (Message.Action "SendSms") golden []).
  reflexivity.
Defined.

(** ** A fresh client *)

(** X20. A client fresh from [NewClient] holds the secret and the single
    parameter [AccessKeyId]; its canonical query string is that one pair,
    with the id escaped. *)
Theorem NewClient_query (accessKeyID secret : string) :
  let c := NewClient accessKeyID secret in
  accessKeySecret c = secret
  /\ Params c = {[ "AccessKeyId" := accessKeyID ]}
  /\ SortedQueryStr c = "AccessKeyId=" +:+ URL.QueryEscape accessKeyID.
Proof.
  cbv zeta. split; [reflexivity|]. split; [reflexivity|].
  rewrite SortedQueryStr_pairs. unfold NewClient, set_Params. cbn [Params].
  unfold sorted_keys. rewrite insert_empty, map_to_list_singleton.
  cbn [fmap list_fmap fst]. 
  change (merge_sort String.le ["AccessKeyId"]) with ["AccessKeyId"].
  cbn [amp_pairs]. unfold pair_str.
  rewrite lookup_singleton_eq, sapp_nil_r. reflexivity.
Qed.
